(** * update_tauri_config.py: a shallow embedding

    The script patches [bundle.resources] of a Tauri configuration file
    with the FFmpeg binaries of one platform.  This development embeds

    - Python text: a [str] is a sequence of Unicode code points;
    - the part of the [json] module the script calls: [json.load] and
      [json.dump] with [indent=2, ensure_ascii=False];
    - the file system, the two output streams and the exit paths, as a
      state and exception monad over a [world];
    - [update_tauri_config] itself, statement by statement.

    Floating point is not interpreted: a JSON number with a fraction or an
    exponent is kept as the token that denotes it. *)

From Stdlib Require Import ZArith NArith String Ascii Decimal DecimalZ DecimalFacts.
From stdpp Require Import base option list gmap.

#[local] Set Warnings "-register-all,-clear-no-such-hyp".

Local Open Scope N_scope.

(** ** Text *)

Definition ch (a : ascii) : N := N_of_ascii a.

(** [py "abc"] is the Python string literal ['abc']. *)
Definition py (s : string) : list N := map N_of_ascii (list_ascii_of_string s).
Arguments py : simpl never.

Definition quote : N := 34.
Definition backslash : N := 92.
Definition newline : N := 10.
Definition space : N := 32.

Definition str_eqb (a b : list N) : bool := bool_decide (a = b).

Fixpoint starts_with (p s : list N) : bool :=
  match p, s with
  | [], _ => true
  | a :: p', b :: s' => (a =? b) && starts_with p' s'
  | _ :: _, [] => false
  end.

(** [sub in s] on two Python strings. *)
Fixpoint is_substring (p s : list N) : bool :=
  starts_with p s || match s with [] => false | _ :: s' => is_substring p s' end.

(** [sep.join(l)] *)
Fixpoint join (sep : list N) (l : list (list N)) : list N :=
  match l with
  | [] => []
  | [x] => x
  | x :: l' => x ++ sep ++ join sep l'
  end.

Fixpoint span (f : N → bool) (s : list N) : list N * list N :=
  match s with
  | c :: s' => if f c then let '(a, b) := span f s' in (c :: a, b) else ([], s)
  | [] => ([], [])
  end.

(** A code point the UTF-8 codec accepts: a Unicode scalar value. *)
Definition is_surrogate (c : N) : bool := (0xD800 <=? c) && (c <=? 0xDFFF).
Definition is_scalar (c : N) : bool := (c <=? 0x10FFFF) && negb (is_surrogate c).
Definition utf8_ok (s : list N) : bool := forallb is_scalar s.

(** ** JSON values, as [json.load] builds them

    A [dict] keeps insertion order and has unique keys: an association
    list that [dict_set] updates in place or extends at the end.  A
    [float] is kept as the literal it was read from: the arithmetic of
    floats and [float.__repr__] are not part of the model, so a float is
    written back with the characters it had where CPython writes the
    shortest literal of the same value. *)

Inductive json :=
| JNull
| JBool (b : bool)
| JInt (z : Z)
| JFloat (lit : list N)
| JStr (s : list N)
| JList (l : list json)
| JDict (d : list (list N * json)).

Fixpoint dict_get (k : list N) (d : list (list N * json)) : option json :=
  match d with
  | [] => None
  | (k', v) :: d' => if str_eqb k' k then Some v else dict_get k d'
  end.

Definition dict_mem (k : list N) (d : list (list N * json)) : bool :=
  bool_decide (is_Some (dict_get k d)).

(** [d[k] = v] *)
Fixpoint dict_set (k : list N) (v : json) (d : list (list N * json)) : list (list N * json) :=
  match d with
  | [] => [(k, v)]
  | (k', v') :: d' => if str_eqb k' k then (k, v) :: d' else (k', v') :: dict_set k v d'
  end.

(** [dict(pairs)] *)
Definition dict_of_pairs (pairs : list (list N * json)) : list (list N * json) :=
  fold_left (λ d kv, dict_set kv.1 kv.2 d) pairs [].

(** ** Decimal integers: [int.__repr__] and [int(...)] *)

Fixpoint uint_chars (u : Decimal.uint) : list N :=
  match u with
  | Nil => []
  | D0 u => 48 :: uint_chars u
  | D1 u => 49 :: uint_chars u
  | D2 u => 50 :: uint_chars u
  | D3 u => 51 :: uint_chars u
  | D4 u => 52 :: uint_chars u
  | D5 u => 53 :: uint_chars u
  | D6 u => 54 :: uint_chars u
  | D7 u => 55 :: uint_chars u
  | D8 u => 56 :: uint_chars u
  | D9 u => 57 :: uint_chars u
  end.

Definition is_digit (c : N) : bool := (48 <=? c) && (c <=? 57).

Fixpoint chars_uint (s : list N) : Decimal.uint :=
  match s with
  | [] => Nil
  | c :: s' =>
      let u := chars_uint s' in
      match c with
      | 48 => D0 u | 49 => D1 u | 50 => D2 u | 51 => D3 u | 52 => D4 u
      | 53 => D5 u | 54 => D6 u | 55 => D7 u | 56 => D8 u | 57 => D9 u
      | _ => Nil
      end
  end.

Definition int_repr (z : Z) : list N :=
  match Z.to_int z with
  | Pos u => uint_chars u
  | Neg u => ch "-" :: uint_chars u
  end.

Definition parse_int (s : list N) : Z :=
  match s with
  | c :: s' => if c =? ch "-" then Z.of_int (Neg (chars_uint s')) else Z.of_int (Pos (chars_uint s))
  | [] => 0%Z
  end.

(** ** [json.encoder] with [indent=2, ensure_ascii=False] *)

Definition hex_digit (n : N) : N := if n <? 10 then 48 + n else 87 + n.

(** [ESCAPE_DCT]: the short escapes, and [\u00XX] for the other control
    characters; every other character is written as it is. *)
Definition escape_char (c : N) : list N :=
  if c =? quote then [backslash; quote]
  else if c =? backslash then [backslash; backslash]
  else if c =? 10 then [backslash; ch "n"]
  else if c =? 13 then [backslash; ch "r"]
  else if c =? 9 then [backslash; ch "t"]
  else if c =? 8 then [backslash; ch "b"]
  else if c =? 12 then [backslash; ch "f"]
  else if c <? 32 then
    [backslash; ch "u"; ch "0"; ch "0"; hex_digit (c / 16); hex_digit (c mod 16)]
  else [c].

Definition encode_basestring (s : list N) : list N :=
  quote :: flat_map escape_char s ++ [quote].

Definition newline_indent (level : nat) : list N :=
  newline :: replicate (2 * level) space.

(** The one-chunk encodings of [_iterencode]. *)
Definition scalar_chunk (o : json) : option (list N) :=
  match o with
  | JNull => Some (py "null")
  | JBool true => Some (py "true")
  | JBool false => Some (py "false")
  | JInt z => Some (int_repr z)
  | JFloat lit => Some lit
  | JStr s => Some (encode_basestring s)
  | JList _ | JDict _ => None
  end.

(** The text [json.dumps(o, indent=2, ensure_ascii=False)] nested [level] deep. *)
Fixpoint dumps_at (level : nat) (o : json) : list N :=
  match o with
  | JNull => py "null"
  | JBool true => py "true"
  | JBool false => py "false"
  | JInt z => int_repr z
  | JFloat lit => lit
  | JStr s => encode_basestring s
  | JList [] => py "[]"
  | JList l =>
      ch "[" :: newline_indent (S level)
        ++ join (ch "," :: newline_indent (S level)) (map (dumps_at (S level)) l)
        ++ newline_indent level ++ [ch "]"]
  | JDict [] => py "{}"
  | JDict d =>
      ch "{" :: newline_indent (S level)
        ++ join (ch "," :: newline_indent (S level))
             (map (λ kv, encode_basestring kv.1 ++ py ": " ++ dumps_at (S level) kv.2) d)
        ++ newline_indent level ++ [ch "}"]
  end.

Definition dumps (o : json) : list N := dumps_at 0 o.

(** The chunks [_make_iterencode] yields, which [json.dump] writes one by one. *)
Fixpoint iterencode (level : nat) (o : json) : list (list N) :=
  match o with
  | JList [] => [py "[]"]
  | JList (v :: l) =>
      let item (buf : list N) (v : json) : list (list N) :=
        match scalar_chunk v with
        | Some c => [buf ++ c]
        | None => buf :: iterencode (S level) v
        end in
      item (ch "[" :: newline_indent (S level)) v
        ++ flat_map (item (ch "," :: newline_indent (S level))) l
        ++ [newline_indent level; [ch "]"]]
  | JDict [] => [py "{}"]
  | JDict (kv :: d) =>
      let item (kv : list N * json) : list (list N) :=
        encode_basestring kv.1 :: py ": " :: iterencode (S level) kv.2 in
      [ch "{"] :: newline_indent (S level) :: item kv
        ++ flat_map (λ kv, (ch "," :: newline_indent (S level)) :: item kv) d
        ++ [newline_indent level; [ch "}"]]
  | _ => match scalar_chunk o with Some c => [c] | None => [] end
  end.

(** ** [json.decoder]: [json.loads] on a Python string

    The scanner works on the text that remains; [None] is a
    [JSONDecodeError]. *)

Definition is_ws (c : N) : bool := (c =? 32) || (c =? 9) || (c =? 10) || (c =? 13).

Fixpoint skip_ws (s : list N) : list N :=
  match s with
  | c :: s' => if is_ws c then skip_ws s' else s
  | [] => []
  end.

Definition hex_val (c : N) : option N :=
  if (48 <=? c) && (c <=? 57) then Some (c - 48)
  else if (97 <=? c) && (c <=? 102) then Some (c - 87)
  else if (65 <=? c) && (c <=? 70) then Some (c - 55)
  else None.

(** [_decode_uXXXX]: four hexadecimal digits. *)
Definition decode_uXXXX (s : list N) : option (N * list N) :=
  match s with
  | a :: b :: c :: d :: s' =>
      a ← hex_val a; b ← hex_val b; c ← hex_val c; d ← hex_val d;
      Some (((a * 16 + b) * 16 + c) * 16 + d, s')
  | _ => None
  end.

(** [BACKSLASH]: the one-letter escapes. *)
Definition unescape (c : N) : option N :=
  if c =? quote then Some quote
  else if c =? backslash then Some backslash
  else if c =? ch "/" then Some (ch "/")
  else if c =? ch "b" then Some 8
  else if c =? ch "f" then Some 12
  else if c =? ch "n" then Some 10
  else if c =? ch "r" then Some 13
  else if c =? ch "t" then Some 9
  else None.

Definition is_high_surrogate (c : N) : bool := (0xD800 <=? c) && (c <=? 0xDBFF).
Definition is_low_surrogate (c : N) : bool := (0xDC00 <=? c) && (c <=? 0xDFFF).

(** The code point after a [\u] escape that decoded to [uni]: a high
    surrogate followed by an escaped low surrogate is one character. *)
Definition join_surrogates (uni : N) (s : list N) : option (N * list N) :=
  if is_high_surrogate uni then
    match s with
    | b :: u :: s' =>
        if (b =? backslash) && (u =? ch "u") then
          '(uni2, s'') ← decode_uXXXX s';
          if is_low_surrogate uni2
          then Some (0x10000 + ((uni - 0xD800) * 1024 + (uni2 - 0xDC00)), s'')
          else Some (uni, s)
        else Some (uni, s)
    | _ => Some (uni, s)
    end
  else Some (uni, s).

(** [scanstring(s, end, strict=True)], from just after the opening quote.
    The fuel bounds the characters read. *)
Fixpoint scanstring (fuel : nat) (s : list N) : option (list N * list N) :=
  match fuel with
  | O => None
  | S fuel =>
      match s with
      | [] => None
      | c :: s' =>
          if c =? quote then Some ([], s')
          else if c =? backslash then
            match s' with
            | [] => None
            | e :: s'' =>
                if e =? ch "u" then
                  '(uni, r) ← decode_uXXXX s'';
                  '(c', r') ← join_surrogates uni r;
                  '(t, r'') ← scanstring fuel r';
                  Some (c' :: t, r'')
                else
                  c' ← unescape e;
                  '(t, r) ← scanstring fuel s'';
                  Some (c' :: t, r)
            end
          else if c <? 32 then None
          else '(t, r) ← scanstring fuel s'; Some (c :: t, r)
      end
  end.

(** [NUMBER_RE]: the integer part, and the fraction and the exponent where
    the text has them. *)
Definition match_int (s : list N) : option (list N * list N) :=
  let '(sign, s1) :=
    match s with
    | c :: s' => if c =? ch "-" then ([c], s') else ([], s)
    | [] => ([], s)
    end in
  match s1 with
  | c :: s' =>
      if c =? ch "0" then Some (sign ++ [c], s')
      else if is_digit c then let '(ds, r) := span is_digit s' in Some (sign ++ c :: ds, r)
      else None
  | [] => None
  end.

Definition match_frac (s : list N) : list N * list N :=
  match s with
  | c :: s' =>
      if c =? ch "." then
        match span is_digit s' with
        | ([], _) => ([], s)
        | (ds, r) => (c :: ds, r)
        end
      else ([], s)
  | [] => ([], s)
  end.

Definition match_exp (s : list N) : list N * list N :=
  match s with
  | c :: s' =>
      if (c =? ch "e") || (c =? ch "E") then
        let '(sign, s1) :=
          match s' with
          | g :: s'' => if (g =? ch "-") || (g =? ch "+") then ([g], s'') else ([], s')
          | [] => ([], s')
          end in
        match span is_digit s1 with
        | ([], _) => ([], s)
        | (ds, r) => (c :: sign ++ ds, r)
        end
      else ([], s)
  | [] => ([], s)
  end.

Definition match_number (s : list N) : option (json * list N) :=
  '(int, r) ← match_int s;
  let '(frac, r1) := match_frac r in
  let '(exp, r2) := match_exp r1 in
  match frac, exp with
  | [], [] => Some (JInt (parse_int int), r2)
  | _, _ => Some (JFloat (int ++ frac ++ exp), r2)
  end.

Definition match_literal (lit : list N) (v : json) (s : list N) : option (json * list N) :=
  if starts_with lit s then Some (v, drop (length lit) s) else None.

(** The scalars of [_scan_once] other than strings. *)
Definition scan_scalar (s : list N) : option (json * list N) :=
  match s with
  | [] => None
  | c :: _ =>
      if c =? ch "n" then match_literal (py "null") JNull s
      else if c =? ch "t" then match_literal (py "true") (JBool true) s
      else if c =? ch "f" then match_literal (py "false") (JBool false) s
      else match match_number s with
           | Some r => Some r
           | None =>
               if c =? ch "N" then match_literal (py "NaN") (JFloat (py "NaN")) s
               else if c =? ch "I" then match_literal (py "Infinity") (JFloat (py "Infinity")) s
               else if c =? ch "-" then match_literal (py "-Infinity") (JFloat (py "-Infinity")) s
               else None
           end
  end.

(** [_scan_once], [JSONArray] and [JSONObject].  [JSONArray] and
    [JSONObject] start after the opening bracket; [array_items] and
    [object_items] are their loops, entered at a value and at the
    character after the quote that opens a key. *)
Fixpoint scan_once (fuel : nat) (s : list N) : option (json * list N) :=
  match fuel with
  | O => None
  | S fuel =>
      match s with
      | [] => None
      | c :: s' =>
          if c =? quote then '(t, r) ← scanstring (length s') s'; Some (JStr t, r)
          else if c =? ch "{" then
            match skip_ws s' with
            | c1 :: r =>
                if c1 =? ch "}" then Some (JDict [], r)
                else if c1 =? quote then
                  '(pairs, r') ← object_items fuel r; Some (JDict (dict_of_pairs pairs), r')
                else None
            | [] => None
            end
          else if c =? ch "[" then
            match skip_ws s' with
            | c1 :: r =>
                if c1 =? ch "]" then Some (JList [], r)
                else '(vs, r') ← array_items fuel (c1 :: r); Some (JList vs, r')
            | [] => None
            end
          else scan_scalar s
      end
  end
with array_items (fuel : nat) (s : list N) : option (list json * list N) :=
  match fuel with
  | O => None
  | S fuel =>
      '(v, r) ← scan_once fuel s;
      match skip_ws r with
      | c :: r' =>
          if c =? ch "]" then Some ([v], r')
          else if c =? ch "," then
            '(vs, r'') ← array_items fuel (skip_ws r'); Some (v :: vs, r'')
          else None
      | [] => None
      end
  end
with object_items (fuel : nat) (s : list N) : option (list (list N * json) * list N) :=
  match fuel with
  | O => None
  | S fuel =>
      '(key, r) ← scanstring (length s) s;
      match skip_ws r with
      | c :: r1 =>
          if c =? ch ":" then
            '(v, r2) ← scan_once fuel (skip_ws r1);
            match skip_ws r2 with
            | c2 :: r3 =>
                if c2 =? ch "}" then Some ([(key, v)], r3)
                else if c2 =? ch "," then
                  match skip_ws r3 with
                  | c3 :: r4 =>
                      if c3 =? quote then
                        '(kvs, r5) ← object_items fuel r4; Some ((key, v) :: kvs, r5)
                      else None
                  | [] => None
                  end
                else None
            | [] => None
            end
          else None
      | [] => None
      end
  end.

Definition BOM : N := 0xFEFF.

(** [json.loads(s)]: one value between optional white space, and nothing else. *)
Definition loads (s : list N) : option json :=
  match s with
  | c :: _ => if c =? BOM then None else
      '(v, r) ← scan_once (S (length s)) (skip_ws s);
      match skip_ws r with [] => Some v | _ :: _ => None end
  | [] => None
  end.

(** ** The world the script runs in

    A file is the text it decodes to under UTF-8; a text with a code point
    that is no Unicode scalar value is one the codec refuses.  [trace]
    records the file-system calls, most recent first. *)

Inductive node :=
| RegularFile (content : list N)
| Directory.

Inductive io_event :=
| EvExists (p : list N)
| EvOpenRead (p : list N)
| EvOpenWrite (p : list N).

Record world := World {
  files : gmap (list N) node;
  stdout : list N;
  stderr : list N;
  trace : list io_event
}.

Inductive exn :=
| JSONDecodeError
| TypeError
| KeyError
| FileNotFoundError
| IsADirectoryError
| UnicodeDecodeError
| UnicodeEncodeError.

(** How a call ends: it returns, [sys.exit(code)] is called, or an
    exception is raised and nothing catches it. *)
Inductive result (A : Type) :=
| Return (a : A)
| SysExit (code : Z)
| Raise (e : exn).
Arguments Return {A} a.
Arguments SysExit {A} code.
Arguments Raise {A} e.

Definition M (A : Type) : Type := world → result A * world.

Definition ret {A} (a : A) : M A := λ w, (Return a, w).

Definition bind {A B} (m : M A) (k : A → M B) : M B :=
  λ w, match m w with
       | (Return a, w') => k a w'
       | (SysExit c, w') => (SysExit c, w')
       | (Raise e, w') => (Raise e, w')
       end.

Definition lift {A} (r : result A) : M A := λ w, (r, w).

Declare Scope py_scope.
Delimit Scope py_scope with py.
Notation "x <- m ;; k" := (bind m (λ x, k))
  (at level 100, m at next level, right associativity) : py_scope.
Notation "m ;; k" := (bind m (λ _, k))
  (at level 100, right associativity) : py_scope.
Local Open Scope py_scope.

(** The exit status of the process that ran the call. *)
Definition exit_status {A} (r : result A) : Z :=
  match r with
  | Return _ => 0
  | SysExit c => c
  | Raise _ => 1
  end.

Definition sys_exit {A} (code : Z) : M A := lift (SysExit code).

(** [print(s)] and [print(s, file=sys.stderr)] *)
Definition print (s : list N) : M unit :=
  λ w, (Return (), World (files w) (stdout w ++ s ++ [newline]) (stderr w) (trace w)).

Definition print_err (s : list N) : M unit :=
  λ w, (Return (), World (files w) (stdout w) (stderr w ++ s ++ [newline]) (trace w)).

Definition log (e : io_event) (w : world) : world :=
  World (files w) (stdout w) (stderr w) (e :: trace w).

(** [Path(p).exists()] *)
Definition path_exists (p : list N) : M bool :=
  λ w, (Return (bool_decide (is_Some (files w !! p))), log (EvExists p) w).

(** [open(p, 'r', encoding='utf-8')] and [f.read()] *)
Definition read_text (p : list N) : M (list N) :=
  λ w, let w' := log (EvOpenRead p) w in
       match files w !! p with
       | None => (Raise FileNotFoundError, w')
       | Some Directory => (Raise IsADirectoryError, w')
       | Some (RegularFile t) =>
           if utf8_ok t then (Return t, w') else (Raise UnicodeDecodeError, w')
       end.

(** [json.load(f)] *)
Definition json_load (p : list N) : M json :=
  text <- read_text p ;;
  match loads text with
  | Some v => ret v
  | None => lift (Raise JSONDecodeError)
  end.

(** [open(p, 'w', encoding='utf-8')]: the file is created or emptied. *)
Definition open_write (p : list N) : M unit :=
  λ w, let w' := log (EvOpenWrite p) w in
       match files w !! p with
       | Some Directory => (Raise IsADirectoryError, w')
       | _ => (Return (), World (<[p := RegularFile []]> (files w)) (stdout w) (stderr w) (trace w'))
       end.

(** [f.write(chunk)] on the file opened at [p] *)
Definition file_write (p : list N) (chunk : list N) : M unit :=
  λ w, if utf8_ok chunk then
         match files w !! p with
         | Some (RegularFile t) =>
             (Return (), World (<[p := RegularFile (t ++ chunk)]> (files w))
                               (stdout w) (stderr w) (trace w))
         | _ => (Return (), w)
         end
       else (Raise UnicodeEncodeError, w).

Fixpoint write_chunks (p : list N) (chunks : list (list N)) : M unit :=
  match chunks with
  | [] => ret ()
  | c :: chunks' => file_write p c ;; write_chunks p chunks'
  end.

(** [json.dump(o, f, indent=2, ensure_ascii=False)] *)
Definition json_dump (o : json) (p : list N) : M unit :=
  write_chunks p (iterencode 0 o).

(** ** Python's [in], [x[k]] and [x[k] = v] with a string key, on the
    values [json.load] returns *)

Definition is_str (s : list N) (v : json) : bool :=
  match v with
  | JStr t => str_eqb t s
  | _ => false
  end.

Definition py_contains (k : list N) (c : json) : result bool :=
  match c with
  | JDict d => Return (dict_mem k d)
  | JList l => Return (existsb (is_str k) l)
  | JStr s => Return (is_substring k s)
  | JNull | JBool _ | JInt _ | JFloat _ => Raise TypeError
  end.

Definition py_getitem (c : json) (k : list N) : result json :=
  match c with
  | JDict d => match dict_get k d with Some v => Return v | None => Raise KeyError end
  | _ => Raise TypeError
  end.

Definition py_setitem (c : json) (k : list N) (v : json) : result json :=
  match c with
  | JDict d => Return (JDict (dict_set k v d))
  | _ => Raise TypeError
  end.

(** [repr] of a list of strings that have no quote, no backslash and no
    character [repr] would escape, as the resource paths are. *)
Definition repr_str (s : list N) : list N := ch "'" :: s ++ [ch "'"].
Definition repr_list (l : list (list N)) : list N :=
  ch "[" :: join (py ", ") (map repr_str l) ++ [ch "]"].

(** ** The script *)

Definition platform_resources : list (list N * list (list N)) :=
  [ (py "macos-aarch64",
      [py "binaries/macos-aarch64/ffmpeg"; py "binaries/macos-aarch64/ffprobe"]);
    (py "macos-x86_64",
      [py "binaries/macos-x86_64/ffmpeg"; py "binaries/macos-x86_64/ffprobe"]);
    (py "linux-x86_64",
      [py "binaries/linux-x86_64/ffmpeg"; py "binaries/linux-x86_64/ffprobe"]);
    (py "windows-x86_64",
      [py "binaries/windows-x86_64/ffmpeg.exe"; py "binaries/windows-x86_64/ffprobe.exe"]) ].

(** [platform_resources[platform]], [None] when [platform not in platform_resources] *)
Fixpoint table_get {A} (k : list N) (t : list (list N * A)) : option A :=
  match t with
  | [] => None
  | (k', v) :: t' => if str_eqb k' k then Some v else table_get k t'
  end.

Definition rbind {A B} (r : result A) (k : A → result B) : result B :=
  match r with
  | Return a => k a
  | SysExit c => SysExit c
  | Raise e => Raise e
  end.

(** Lines 57 to 61: the update of [config] in memory.  The dictionary at
    [config['bundle']] is changed in place, so the change shows in
    [config]: the last step writes it back at its key. *)
Definition set_bundle_resources (resources : list (list N)) (config : json) : result json :=
  rbind (py_contains (py "bundle") config) (λ present,
  rbind (if negb present
         then py_setitem config (py "bundle") (JDict [])
         else Return config) (λ config,
  rbind (py_getitem config (py "bundle")) (λ bundle,
  rbind (py_setitem bundle (py "resources") (JList (map JStr resources))) (λ bundle,
  py_setitem config (py "bundle") bundle)))).

(** Lines 63 to 66 *)
Definition write_config (config_path : list N) (config : json) : M unit :=
  open_write config_path ;;
  json_dump config config_path ;;
  file_write config_path [newline].

Definition update_tauri_config (platform config_path : list N) : M unit :=
  match table_get platform platform_resources with
  | None =>
      print_err (py "Error: Unknown platform '" ++ platform ++ py "'") ;;
      print_err (py "Valid platforms: " ++ join (py ", ") (map fst platform_resources)) ;;
      sys_exit 1
  | Some resources =>
      found <- path_exists config_path ;;
      if negb found then
        print_err (py "Error: Config file '" ++ config_path ++ py "' not found") ;;
        sys_exit 1
      else
        config <- json_load config_path ;;
        config <- lift (set_bundle_resources resources config) ;;
        write_config config_path config ;;
        print (py "Successfully updated " ++ config_path) ;;
        print (py "Platform: " ++ platform) ;;
        print (py "Resources: " ++ repr_list resources)
  end.

(** The [choices] of the [--platform] option in [main]. *)
Definition choices : list (list N) :=
  [py "macos-aarch64"; py "macos-x86_64"; py "linux-x86_64"; py "windows-x86_64"].

(** ** Vocabulary of the statements *)

(** The extension of a path: the text from the last dot of the last
    component on, when that dot is neither the first nor the last
    character of the component ([PurePath(p).suffix], for a path that does
    not end in a slash). *)
Fixpoint basename (p : list N) : list N :=
  match p with
  | [] => []
  | c :: p' => if existsb (N.eqb (ch "/")) p' then basename p' else
               if c =? ch "/" then p' else p
  end.

Fixpoint last_dot (name : list N) : option (list N) :=
  match name with
  | [] => None
  | c :: name' =>
      match last_dot name' with
      | Some ext => Some ext
      | None => if c =? ch "." then Some name else None
      end
  end.

Definition suffix (p : list N) : list N :=
  match basename p with
  | [] => []
  | _ :: name' =>
      match last_dot name' with
      | Some (d :: e :: ext) => d :: e :: ext
      | _ => []
      end
  end.

Definition count_lines (s : list N) : nat := length (filter (λ c, c = newline) s).

Definition is_dict (o : json) : bool :=
  match o with JDict _ => true | _ => false end.

(** A document [json.load] can return: dictionaries have unique keys and a
    float is a number token with a fraction or an exponent, or one of the
    three constants. *)
Definition float_token (lit : list N) : bool :=
  match match_number lit with
  | Some (JFloat lit', []) => str_eqb lit' lit
  | _ => false
  end
  || bool_decide (lit ∈ [py "NaN"; py "Infinity"; py "-Infinity"]).

Fixpoint wf (o : json) : Prop :=
  match o with
  | JFloat lit => float_token lit = true
  | JList l => foldr (λ v P, wf v ∧ P) True l
  | JDict d => NoDup (map fst d) ∧ foldr (λ kv P, wf kv.2 ∧ P) True d
  | _ => True
  end.

(** Every string of the document, keys included, is text UTF-8 encodes:
    it has no surrogate code point, which [json.load] builds from an
    unpaired [\uD800] to [\uDFFF] escape. *)
Fixpoint strings_ok (o : json) : Prop :=
  match o with
  | JStr s => utf8_ok s = true
  | JList l => foldr (λ v P, strings_ok v ∧ P) True l
  | JDict d => foldr (λ kv P, (utf8_ok kv.1 = true ∧ strings_ok kv.2) ∧ P) True d
  | _ => True
  end.

(** After every line break the text ends, or come an even number of
    spaces and then a character that is neither a space nor a line break. *)
Fixpoint indent_ok (n : nat) (s : list N) : bool :=
  match s with
  | [] => Nat.eqb n 0
  | c :: s' =>
      if c =? space then indent_ok (S n) s'
      else negb (c =? newline) && Nat.even n
  end.

Fixpoint well_indented (s : list N) : bool :=
  match s with
  | [] => true
  | c :: s' => (if c =? newline then indent_ok 0 s' else true) && well_indented s'
  end.

(** What follows a value in the text [json.dump] writes: a comma, a
    line break, or the end of the text. *)
Definition follow_ok (s : list N) : bool :=
  match s with
  | [] => true
  | c :: _ => (c =? ch ",") || (c =? newline)
  end.

(** Fuel with which [scan_once] reads the text of a document. *)
Fixpoint scan_fuel (o : json) : nat :=
  match o with
  | JList l => S (foldr (λ v n, S (scan_fuel v + n)) 0%nat l)
  | JDict d => S (foldr (λ kv n, S (scan_fuel kv.2 + n)) 0%nat d)
  | _ => 1
  end.

(** The characters a value starts with in the text [json.dump] writes. *)
Definition value_start (c : N) : bool :=
  is_digit c ||
  bool_decide (c ∈ [quote; ch "{"; ch "["; ch "n"; ch "t"; ch "f"; ch "-"; ch "N"; ch "I"]).

(** The text does not go on with a digit. *)
Definition no_digit_head (t : list N) : bool :=
  match t with [] => true | c :: _ => negb (is_digit c) end.

(** A character of a number token: printable ASCII other than the space. *)
Definition is_graphic (c : N) : bool := (space <? c) && (c <? 128).



(** The world after the existence check and the read of [config_path]. *)
Definition after_read (config_path : list N) (w : world) : world :=
  log (EvOpenRead config_path) (log (EvExists config_path) w).

(** * Properties *)

(** ** The platform table *)

Lemma str_eqb_eq a b : str_eqb a b = true ↔ a = b.
Proof. unfold str_eqb. by rewrite bool_decide_eq_true. Qed.

Lemma table_get_choices platform :
  platform ∈ choices ↔ is_Some (table_get platform platform_resources).
Proof.
  unfold choices, platform_resources, table_get, str_eqb.
  repeat case_bool_decide; subst;
    rewrite ?elem_of_cons, ?elem_of_nil, ?is_Some_alt; naive_solver.
Qed.

Lemma table_get_unsupported platform :
  platform ∉ choices → table_get platform platform_resources = None.
Proof.
  rewrite table_get_choices, <- eq_None_not_Some. done.
Qed.

Lemma table_get_supported platform :
  platform ∈ choices →
  ∃ ext,
    ext = (if str_eqb platform (py "windows-x86_64") then py ".exe" else []) ∧
    table_get platform platform_resources =
      Some [py "binaries/" ++ platform ++ py "/ffmpeg" ++ ext;
            py "binaries/" ++ platform ++ py "/ffprobe" ++ ext].
Proof.
  unfold choices. rewrite !elem_of_cons, elem_of_nil.
  intros [-> | [-> | [-> | [-> | []]]]]; eexists; (split; [reflexivity |]);
    vm_compute; reflexivity.
Qed.

(** C2. For each of the four supported platforms the table gives exactly
    two paths, [binaries/<platform>/ffmpeg] first and
    [binaries/<platform>/ffprobe] second; the two paths of
    [windows-x86_64] end in [.exe] and have that extension, the paths of
    the three other platforms have no extension. *)
Theorem platform_resources_shape platform :
  platform ∈ choices →
  ∃ ffmpeg ffprobe ext,
    table_get platform platform_resources = Some [ffmpeg; ffprobe] ∧
    ext = (if str_eqb platform (py "windows-x86_64") then py ".exe" else []) ∧
    ffmpeg = py "binaries/" ++ platform ++ py "/ffmpeg" ++ ext ∧
    ffprobe = py "binaries/" ++ platform ++ py "/ffprobe" ++ ext ∧
    suffix ffmpeg = ext ∧ suffix ffprobe = ext.
Proof.
  intros Hin. destruct (table_get_supported _ Hin) as (ext & Hext & Hget).
  eexists _, _, ext. split; [exact Hget |]. split; [exact Hext |].
  split; [reflexivity |]. split; [reflexivity |]. subst ext.
  revert Hin. unfold choices. rewrite !elem_of_cons, elem_of_nil.
  intros [-> | [-> | [-> | [-> | []]]]]; vm_compute; split; reflexivity.
Qed.

Lemma platform_resources_shape_witness :
  ∃ ffmpeg ffprobe ext,
    table_get (py "windows-x86_64") platform_resources = Some [ffmpeg; ffprobe] ∧
    ext = (if str_eqb (py "windows-x86_64") (py "windows-x86_64") then py ".exe" else []) ∧
    ffmpeg = py "binaries/" ++ py "windows-x86_64" ++ py "/ffmpeg" ++ ext ∧
    ffprobe = py "binaries/" ++ py "windows-x86_64" ++ py "/ffprobe" ++ ext ∧
    suffix ffmpeg = ext ∧ suffix ffprobe = ext.
Proof.
  apply (platform_resources_shape (py "windows-x86_64")).
  unfold choices. rewrite !elem_of_cons. right. right. right. left. reflexivity.
Defined.

(** ** Dictionaries *)

Lemma dict_get_set_eq k v d : dict_get k (dict_set k v d) = Some v.
Proof.
  induction d as [| [k' v'] d IH]; simpl.
  - unfold str_eqb. by rewrite bool_decide_eq_true_2.
  - destruct (str_eqb k' k) eqn:E; simpl.
    + unfold str_eqb. by rewrite bool_decide_eq_true_2.
    + by rewrite E.
Qed.

Lemma dict_get_set_ne k k' v d : k ≠ k' → dict_get k' (dict_set k v d) = dict_get k' d.
Proof.
  intros Hne. induction d as [| [k0 v0] d IH]; simpl.
  - unfold str_eqb. by rewrite bool_decide_eq_false_2.
  - destruct (str_eqb k0 k) eqn:E; simpl.
    + apply str_eqb_eq in E as ->. unfold str_eqb. by rewrite bool_decide_eq_false_2.
    + by rewrite IH.
Qed.

Lemma dict_set_set k v v' d : dict_set k v (dict_set k v' d) = dict_set k v d.
Proof.
  induction d as [| [k0 v0] d IH]; simpl.
  - unfold str_eqb. by rewrite bool_decide_eq_true_2.
  - destruct (str_eqb k0 k) eqn:E; simpl.
    + unfold str_eqb. by rewrite bool_decide_eq_true_2.
    + by rewrite E, IH.
Qed.

Lemma dict_mem_get k d : dict_mem k d = true ↔ is_Some (dict_get k d).
Proof. unfold dict_mem. by rewrite bool_decide_eq_true. Qed.

Lemma dict_mem_false k d : dict_mem k d = false ↔ dict_get k d = None.
Proof. unfold dict_mem. by rewrite bool_decide_eq_false, eq_None_not_Some. Qed.

Lemma dict_set_keys_present k v d :
  is_Some (dict_get k d) → map fst (dict_set k v d) = map fst d.
Proof.
  induction d as [| [k0 v0] d IH]; simpl.
  - by intros [? ?].
  - destruct (str_eqb k0 k) eqn:E; simpl.
    + apply str_eqb_eq in E as ->. done.
    + intros H. by rewrite IH.
Qed.

Lemma dict_set_keys_absent k v d :
  dict_get k d = None → map fst (dict_set k v d) = map fst d ++ [k].
Proof.
  induction d as [| [k0 v0] d IH]; simpl; [done |].
  destruct (str_eqb k0 k) eqn:E; simpl; [done |].
  intros H. by rewrite IH.
Qed.

Lemma dict_get_None_keys k d : dict_get k d = None ↔ k ∉ map fst d.
Proof.
  induction d as [| [k0 v0] d IH]; simpl.
  - rewrite elem_of_nil. naive_solver.
  - rewrite not_elem_of_cons. destruct (str_eqb k0 k) eqn:E.
    + apply str_eqb_eq in E. naive_solver.
    + assert (k ≠ k0) by (intros ->; unfold str_eqb in E;
        by rewrite bool_decide_eq_true_2 in E). naive_solver.
Qed.

Lemma dict_set_NoDup k v d : NoDup (map fst d) → NoDup (map fst (dict_set k v d)).
Proof.
  intros Hd. destruct (dict_get k d) eqn:E.
  - by rewrite dict_set_keys_present.
  - rewrite dict_set_keys_absent by done. apply NoDup_app. split; [done |].
    split; [| apply NoDup_singleton].
    intros x Hx. rewrite list_elem_of_singleton. intros ->.
    by apply dict_get_None_keys in E.
Qed.

(** ** The update in memory *)

(** What [set_bundle_resources] does to a dictionary. *)
Lemma set_bundle_resources_dict resources d :
  set_bundle_resources resources (JDict d) =
    match dict_get (py "bundle") d with
    | None =>
        Return (JDict (dict_set (py "bundle")
          (JDict [(py "resources", JList (map JStr resources))]) d))
    | Some (JDict b) =>
        Return (JDict (dict_set (py "bundle")
          (JDict (dict_set (py "resources") (JList (map JStr resources)) b)) d))
    | Some _ => Raise TypeError
    end.
Proof.
  unfold set_bundle_resources. simpl.
  destruct (dict_get (py "bundle") d) as [b |] eqn:E.
  - assert (dict_mem (py "bundle") d = true) as -> by (apply dict_mem_get; eauto).
    simpl. rewrite E. simpl. by destruct b.
  - assert (dict_mem (py "bundle") d = false) as -> by by apply dict_mem_false.
    simpl. rewrite dict_get_set_eq. simpl. by rewrite dict_set_set.
Qed.

(** On anything but a dictionary the update raises [TypeError]. *)
Lemma set_bundle_resources_not_dict resources config :
  is_dict config = false → set_bundle_resources resources config = Raise TypeError.
Proof.
  unfold set_bundle_resources. destruct config; simpl; try done.
  - by destruct (is_substring _ _).
  - by destruct (existsb _ _).
Qed.

(** C5. Applying the resources of a platform to the document that
    applying them once gave changes nothing; where the first application
    raises, so does the pair. *)
Theorem set_bundle_resources_idempotent resources config :
  rbind (set_bundle_resources resources config) (set_bundle_resources resources)
  = set_bundle_resources resources config.
Proof.
  destruct (is_dict config) eqn:Hd.
  - destruct config; try done. rewrite set_bundle_resources_dict.
    destruct (dict_get (py "bundle") d) as [[] |] eqn:E; simpl; try done;
      rewrite set_bundle_resources_dict, dict_get_set_eq;
      by rewrite ?dict_set_set.
  - by rewrite set_bundle_resources_not_dict.
Qed.

(** ** The run, phase by phase *)

Lemma bind_Return {A B} (m : M A) (k : A → M B) w a w' :
  m w = (Return a, w') → bind m k w = k a w'.
Proof. intros H. unfold bind. by rewrite H. Qed.

Lemma bind_Raise {A B} (m : M A) (k : A → M B) w e w' :
  m w = (Raise e, w') → bind m k w = (Raise e, w').
Proof. intros H. unfold bind. by rewrite H. Qed.

Lemma bind_SysExit {A B} (m : M A) (k : A → M B) w c w' :
  m w = (SysExit c, w') → bind m k w = (SysExit c, w').
Proof. intros H. unfold bind. by rewrite H. Qed.

Lemma path_exists_eval p w :
  path_exists p w = (Return (bool_decide (is_Some (files w !! p))), log (EvExists p) w).
Proof. done. Qed.

Lemma json_load_eval p w text :
  files w !! p = Some (RegularFile text) →
  utf8_ok text = true →
  json_load p w =
    (match loads text with Some v => Return v | None => Raise JSONDecodeError end,
     log (EvOpenRead p) w).
Proof.
  intros Hf Hu. unfold json_load.
  rewrite (bind_Return _ _ _ text (log (EvOpenRead p) w)).
  - by destruct (loads text).
  - unfold read_text. by rewrite Hf, Hu.
Qed.

Lemma update_unsupported platform config_path w :
  table_get platform platform_resources = None →
  update_tauri_config platform config_path w =
    (SysExit 1,
     World (files w) (stdout w)
       ((stderr w ++ (py "Error: Unknown platform '" ++ platform ++ py "'") ++ [newline])
          ++ (py "Valid platforms: " ++ join (py ", ") (map fst platform_resources))
          ++ [newline])
       (trace w)).
Proof. intros H. unfold update_tauri_config. by rewrite H. Qed.

Lemma update_missing platform config_path w resources :
  table_get platform platform_resources = Some resources →
  files w !! config_path = None →
  update_tauri_config platform config_path w =
    (SysExit 1,
     World (files w) (stdout w)
       (stderr w ++ (py "Error: Config file '" ++ config_path ++ py "' not found")
          ++ [newline])
       (EvExists config_path :: trace w)).
Proof.
  intros H Hf. unfold update_tauri_config. rewrite H.
  unfold bind at 1. unfold path_exists. rewrite Hf.
  rewrite bool_decide_eq_false_2 by (intros [? ?]; done). done.
Qed.

(** With a file of readable text at [config_path], the run gets to
    [json.load] and to the update in memory, and stops there unless both
    return. *)
Lemma update_loaded platform config_path w resources text :
  table_get platform platform_resources = Some resources →
  files w !! config_path = Some (RegularFile text) →
  utf8_ok text = true →
  update_tauri_config platform config_path w =
    match loads text with
    | None => (Raise JSONDecodeError, after_read config_path w)
    | Some config =>
        match set_bundle_resources resources config with
        | Return config' =>
            (write_config config_path config' ;;
             print (py "Successfully updated " ++ config_path) ;;
             print (py "Platform: " ++ platform) ;;
             print (py "Resources: " ++ repr_list resources))
              (after_read config_path w)
        | SysExit c => (SysExit c, after_read config_path w)
        | Raise e => (Raise e, after_read config_path w)
        end
    end.
Proof.
  intros H Hf Hu. unfold update_tauri_config. rewrite H.
  rewrite (bind_Return _ _ _ _ _ (path_exists_eval _ _)).
  rewrite bool_decide_eq_true_2 by eauto. change (negb true) with false. cbv iota.
  assert (files (log (EvExists config_path) w) !! config_path
          = Some (RegularFile text)) as Hf' by done.
  pose proof (json_load_eval _ _ _ Hf' Hu) as Hl. fold (after_read config_path w) in Hl.
  destruct (loads text) as [config |].
  - rewrite (bind_Return _ _ _ _ _ Hl).
    destruct (set_bundle_resources resources config) as [config' | c | e] eqn:Hs.
    + by rewrite (bind_Return _ _ _ config' (after_read config_path w)).
    + by rewrite (bind_SysExit _ _ _ c (after_read config_path w)).
    + by rewrite (bind_Raise _ _ _ e (after_read config_path w)).
  - by rewrite (bind_Raise _ _ _ _ _ Hl).
Qed.

(** C6. A platform that is none of the four choices ends the run with
    [sys.exit(1)], after two lines on the error stream of which the second
    names the four valid platforms; no file-system call is made and no file
    changes. *)
Theorem unsupported_platform_exits platform config_path w :
  platform ∉ choices →
  ∃ w' valid,
    update_tauri_config platform config_path w = (SysExit 1, w') ∧
    exit_status (SysExit 1 : result ()) ≠ 0%Z ∧
    stderr w' = stderr w ++ py "Error: Unknown platform '" ++ platform ++ py "'"
                  ++ [newline] ++ valid ++ [newline] ∧
    valid = py "Valid platforms: macos-aarch64, macos-x86_64, linux-x86_64, windows-x86_64" ∧
    Forall (λ c, is_substring c valid = true) choices ∧
    trace w' = trace w ∧ files w' = files w ∧ stdout w' = stdout w.
Proof.
  intros Hin. apply table_get_unsupported in Hin.
  rewrite (update_unsupported _ _ _ Hin).
  assert (py "Valid platforms: " ++ join (py ", ") (map fst platform_resources)
          = py "Valid platforms: macos-aarch64, macos-x86_64, linux-x86_64, windows-x86_64")
    as -> by (vm_compute; reflexivity).
  eexists _, (py "Valid platforms: macos-aarch64, macos-x86_64, linux-x86_64, windows-x86_64").
  split; [reflexivity |].
  split; [done |]. cbn [stderr]. split.
  { rewrite <- !(assoc_L (++)). reflexivity. }
  split; [reflexivity |].
  split; [| done]. repeat constructor.
Qed.

Lemma unsupported_platform_exits_witness :
  ∃ w' valid,
    update_tauri_config (py "linux-arm64") (py "tauri.conf.json") (World ∅ [] [] [])
      = (SysExit 1, w') ∧
    exit_status (SysExit 1 : result ()) ≠ 0%Z ∧
    stderr w' = [] ++ py "Error: Unknown platform '" ++ py "linux-arm64" ++ py "'"
                  ++ [newline] ++ valid ++ [newline] ∧
    valid = py "Valid platforms: macos-aarch64, macos-x86_64, linux-x86_64, windows-x86_64" ∧
    Forall (λ c, is_substring c valid = true) choices ∧
    trace w' = [] ∧ files w' = ∅ ∧ stdout w' = [].
Proof.
  apply (unsupported_platform_exits (py "linux-arm64") (py "tauri.conf.json")
           (World ∅ [] [] [])).
  unfold choices. rewrite !elem_of_cons, elem_of_nil. vm_compute. intuition discriminate.
Defined.

(** C7. With a supported platform and no file at [config_path], the run
    reports the missing file on the error stream and ends with
    [sys.exit(1)]; it has only asked whether the path exists, and there is
    still no file there. *)
Theorem missing_config_exits platform config_path w :
  platform ∈ choices →
  files w !! config_path = None →
  ∃ w',
    update_tauri_config platform config_path w = (SysExit 1, w') ∧
    exit_status (SysExit 1 : result ()) ≠ 0%Z ∧
    stderr w' = stderr w ++ py "Error: Config file '" ++ config_path ++ py "' not found"
                  ++ [newline] ∧
    trace w' = EvExists config_path :: trace w ∧
    files w' = files w ∧ files w' !! config_path = None ∧ stdout w' = stdout w.
Proof.
  intros Hin Hf. apply table_get_choices in Hin as [resources Hget].
  eexists. split; [by eapply update_missing |].
  split; [done |]. simpl. split; [by rewrite <- !(assoc_L (++)) |]. done.
Qed.

Lemma missing_config_exits_witness :
  ∃ w',
    update_tauri_config (py "linux-x86_64") (py "tauri.conf.json") (World ∅ [] [] [])
      = (SysExit 1, w') ∧
    exit_status (SysExit 1 : result ()) ≠ 0%Z ∧
    stderr w' = [] ++ py "Error: Config file '" ++ py "tauri.conf.json" ++ py "' not found"
                  ++ [newline] ∧
    trace w' = EvExists (py "tauri.conf.json") :: [] ∧
    files w' = ∅ ∧ files w' !! py "tauri.conf.json" = None ∧ stdout w' = [].
Proof.
  apply (missing_config_exits (py "linux-x86_64") (py "tauri.conf.json")
           (World ∅ [] [] [])).
  - unfold choices. rewrite !elem_of_cons. right. right. left. reflexivity.
  - reflexivity.
Defined.

(** C10. When the document has a [bundle] key whose value is no
    dictionary, the update in memory raises [TypeError]: the value is not
    replaced, the run stops before the file is opened for writing, and the
    file is as it was. *)
Theorem bundle_not_dict_raises platform config_path w text d bundle :
  platform ∈ choices →
  files w !! config_path = Some (RegularFile text) →
  utf8_ok text = true →
  loads text = Some (JDict d) →
  dict_get (py "bundle") d = Some bundle →
  is_dict bundle = false →
  (∀ resources, set_bundle_resources resources (JDict d) = Raise TypeError) ∧
  ∃ w',
    update_tauri_config platform config_path w = (Raise TypeError, w') ∧
    files w' = files w ∧
    trace w' = EvOpenRead config_path :: EvExists config_path :: trace w ∧
    exit_status (Raise TypeError : result ()) = 1%Z.
Proof.
  intros Hin Hf Hu Hl Hb Hd.
  assert (∀ resources, set_bundle_resources resources (JDict d) = Raise TypeError) as Hs.
  { intros resources. rewrite set_bundle_resources_dict, Hb. by destruct bundle. }
  split; [exact Hs |].
  apply table_get_choices in Hin as [resources Hget].
  rewrite (update_loaded _ _ _ _ _ Hget Hf Hu), Hl, Hs.
  eexists. split; [reflexivity |]. done.
Qed.

Lemma linux_supported : py "linux-x86_64" ∈ choices.
Proof. unfold choices. rewrite !elem_of_cons. right. right. left. reflexivity. Qed.

Lemma bundle_not_dict_raises_witness :
  let text := [ch "{"; quote] ++ py "bundle" ++ [quote] ++ py ": 5}" in
  let w := World {[ py "tauri.conf.json" := RegularFile text ]} [] [] [] in
  (∀ resources,
     set_bundle_resources resources (JDict [(py "bundle", JInt 5)]) = Raise TypeError) ∧
  ∃ w',
    update_tauri_config (py "linux-x86_64") (py "tauri.conf.json") w = (Raise TypeError, w') ∧
    files w' = files w ∧
    trace w' = EvOpenRead (py "tauri.conf.json") :: EvExists (py "tauri.conf.json") :: trace w ∧
    exit_status (Raise TypeError : result ()) = 1%Z.
Proof.
  intros text w.
  apply (bundle_not_dict_raises (py "linux-x86_64") (py "tauri.conf.json") w text
           [(py "bundle", JInt 5)] (JInt 5)).
  - exact linux_supported.
  - vm_compute. reflexivity.
  - vm_compute. reflexivity.
  - vm_compute. reflexivity.
  - vm_compute. reflexivity.
  - reflexivity.
Defined.




(** ** Induction on JSON values *)

Lemma json_ind' (P : json → Prop) :
  P JNull → (∀ b, P (JBool b)) → (∀ z, P (JInt z)) → (∀ lit, P (JFloat lit)) →
  (∀ s, P (JStr s)) →
  (∀ l, Forall P l → P (JList l)) →
  (∀ d, Forall (λ kv, P kv.2) d → P (JDict d)) →
  ∀ o, P o.
Proof.
  intros Hnull Hbool Hint Hfloat Hstr Hlist Hdict.
  fix IH 1. intros [| b | z | lit | s | l | d];
    [apply Hnull | apply Hbool | apply Hint | apply Hfloat | apply Hstr | |].
  - apply Hlist.
    exact ((fix go (l : list json) : Forall P l :=
              match l return Forall P l with
              | [] => List.Forall_nil P
              | v :: l' => List.Forall_cons P v l' (IH v) (go l')
              end) l).
  - apply Hdict.
    exact ((fix go (d : list (list N * json)) : Forall (λ kv, P kv.2) d :=
              match d return Forall (λ kv, P kv.2) d with
              | [] => List.Forall_nil _
              | kv :: d' => List.Forall_cons _ kv d' (IH kv.2) (go d')
              end) d).
Qed.

(** ** The chunks of [iterencode] make up the text of [dumps] *)

Lemma join_cons sep x l : join sep (x :: l) = x ++ flat_map (λ y, sep ++ y) l.
Proof.
  revert x. induction l as [| y l IH]; intros x.
  - simpl. by rewrite app_nil_r.
  - change (join sep (x :: y :: l)) with (x ++ sep ++ join sep (y :: l)).
    rewrite IH. simpl. by rewrite <- (assoc_L (++)).
Qed.

Lemma concat_flat_map {A} (f : A → list (list N)) l :
  concat (flat_map f l) = flat_map (λ x, concat (f x)) l.
Proof.
  induction l as [| x l IH]; simpl; [done |]. by rewrite concat_app, IH.
Qed.

Lemma flat_map_map {A B} (f : A → B) (g : B → list N) l :
  flat_map g (map f l) = flat_map (λ x, g (f x)) l.
Proof. induction l as [| x l IH]; simpl; [done |]. by rewrite IH. Qed.

Lemma flat_map_ext_Forall {A} (f g : A → list N) l :
  Forall (λ x, f x = g x) l → flat_map f l = flat_map g l.
Proof. induction 1 as [| x l Hx _ IH]; simpl; [done |]. by rewrite Hx, IH. Qed.

Lemma scalar_chunk_dumps level o c : scalar_chunk o = Some c → dumps_at level o = c.
Proof. destruct o as [| [] | | | | |]; simpl; congruence. Qed.

Lemma scalar_chunk_iterencode level o c : scalar_chunk o = Some c → iterencode level o = [c].
Proof. destruct o as [| [] | | | | |]; simpl; congruence. Qed.

Lemma iterencode_concat o : ∀ level, concat (iterencode level o) = dumps_at level o.
Proof.
  induction o as [| b | z | lit | s | l IH | d IH] using json_ind'; intros level.
  all: try (destruct b). 
  all: try reflexivity.
  all: try (cbn [iterencode scalar_chunk dumps_at concat]; by rewrite app_nil_r).
  - destruct l as [| v l]; [done |].
    assert (∀ buf v, (∀ level, concat (iterencode level v) = dumps_at level v) →
      concat (match scalar_chunk v with
              | Some c => [buf ++ c]
              | None => buf :: iterencode (S level) v
              end) = buf ++ dumps_at (S level) v) as Hitem.
    { intros buf v0 Hv. destruct (scalar_chunk v0) as [c |] eqn:E; cbn [concat].
      - by rewrite app_nil_r, (scalar_chunk_dumps _ _ _ E).
      - by rewrite Hv. }
    inversion IH as [| ? ? Hv Hl]; subst.
    change (iterencode level (JList (v :: l))) with
      ((match scalar_chunk v with
        | Some c => [(ch "[" :: newline_indent (S level)) ++ c]
        | None => (ch "[" :: newline_indent (S level)) :: iterencode (S level) v
        end)
       ++ flat_map (λ v, match scalar_chunk v with
                         | Some c => [(ch "," :: newline_indent (S level)) ++ c]
                         | None => (ch "," :: newline_indent (S level))
                                     :: iterencode (S level) v
                         end) l
       ++ [newline_indent level; [ch "]"]]).
    rewrite !concat_app, (Hitem _ _ Hv), concat_flat_map.
    change (dumps_at level (JList (v :: l))) with
      (ch "[" :: newline_indent (S level)
        ++ join (ch "," :: newline_indent (S level)) (map (dumps_at (S level)) (v :: l))
        ++ newline_indent level ++ [ch "]"]).
    cbn [map concat]. rewrite app_nil_r, join_cons, flat_map_map.
    rewrite (flat_map_ext_Forall _
               (λ x, (ch "," :: newline_indent (S level)) ++ dumps_at (S level) x) l).
    2: { eapply Forall_impl; [exact Hl |]. intros v0 Hv0. cbv beta. apply Hitem, Hv0. }
    rewrite <- !app_comm_cons, <- !(assoc_L (++)). reflexivity.
  - destruct d as [| kv d]; [done |].
    inversion IH as [| ? ? Hv Hl]; subst.
    change (iterencode level (JDict (kv :: d))) with
      ([ch "{"] :: newline_indent (S level)
         :: (encode_basestring kv.1 :: py ": " :: iterencode (S level) kv.2)
         ++ flat_map (λ kv, (ch "," :: newline_indent (S level))
                              :: encode_basestring kv.1 :: py ": "
                              :: iterencode (S level) kv.2) d
         ++ [newline_indent level; [ch "}"]]).
    change (dumps_at level (JDict (kv :: d))) with
      (ch "{" :: newline_indent (S level)
        ++ join (ch "," :: newline_indent (S level))
             (map (λ kv, encode_basestring kv.1 ++ py ": " ++ dumps_at (S level) kv.2)
                (kv :: d))
        ++ newline_indent level ++ [ch "}"]).
    cbn [map]. rewrite join_cons, flat_map_map.
    repeat (rewrite concat_cons || rewrite concat_app).
    rewrite Hv, concat_flat_map, concat_nil, app_nil_r.
    rewrite (flat_map_ext_Forall _
               (λ x, (ch "," :: newline_indent (S level))
                       ++ encode_basestring x.1 ++ py ": " ++ dumps_at (S level) x.2) d).
    2: { eapply Forall_impl; [exact Hl |]. intros kv0 Hkv0. cbv beta.
         rewrite !concat_cons, Hkv0. reflexivity. }
    rewrite <- ?app_comm_cons, <- !(assoc_L (++)). reflexivity.
Qed.

(** ** Writing the file *)

Lemma utf8_ok_app a b : utf8_ok (a ++ b) = utf8_ok a && utf8_ok b.
Proof. apply forallb_app. Qed.

Lemma utf8_ok_concat chunks : utf8_ok (concat chunks) = forallb utf8_ok chunks.
Proof.
  induction chunks as [| c chunks IH]; simpl; [done |]. by rewrite utf8_ok_app, IH.
Qed.

Lemma write_chunks_ok p chunks : ∀ w t,
  files w !! p = Some (RegularFile t) →
  forallb utf8_ok chunks = true →
  write_chunks p chunks w =
    (Return (),
     World (<[p := RegularFile (t ++ concat chunks)]> (files w))
       (stdout w) (stderr w) (trace w)).
Proof.
  induction chunks as [| c chunks IH]; intros w t Hf Hok; simpl.
  - rewrite app_nil_r, insert_id by done. by destruct w.
  - simpl in Hok. apply andb_prop in Hok as [Hc Hok].
    erewrite bind_Return; last by (unfold file_write; rewrite Hc, Hf).
    erewrite IH; [| simpl; apply lookup_insert_eq | done]. simpl.
    by rewrite insert_insert_eq, <- (assoc_L (++)).
Qed.

Lemma write_chunks_Return p chunks : ∀ w w',
  write_chunks p chunks w = (Return (), w') → forallb utf8_ok chunks = true.
Proof.
  induction chunks as [| c chunks IH]; intros w w' H; simpl in *; [done |].
  unfold bind, file_write in H. destruct (utf8_ok c); [| done]. simpl.
  destruct (files w !! p) as [[] |]; eauto.
Qed.

(** The write of lines 63 to 66 returns exactly when [config_path] is no
    directory and the text of the document is one UTF-8 encodes; the file
    then holds that text and a line break. *)
Lemma write_config_ok p o w :
  files w !! p ≠ Some Directory →
  utf8_ok (dumps o) = true →
  write_config p o w =
    (Return (),
     World (<[p := RegularFile (dumps o ++ [newline])]> (files w))
       (stdout w) (stderr w) (EvOpenWrite p :: trace w)).
Proof.
  intros Hd Hu. unfold write_config.
  set (w1 := World (<[p := RegularFile []]> (files w)) (stdout w) (stderr w)
               (EvOpenWrite p :: trace w)).
  assert (open_write p w = (Return (), w1)) as Ho.
  { unfold open_write. by destruct (files w !! p) as [[] |]. }
  rewrite (bind_Return _ _ _ _ _ Ho).
  assert (forallb utf8_ok (iterencode 0 o) = true) as Hc.
  { by rewrite <- utf8_ok_concat, iterencode_concat. }
  pose proof (write_chunks_ok p _ w1 [] (lookup_insert_eq _ _ _) Hc) as Hw.
  rewrite iterencode_concat in Hw. fold (json_dump o p) in Hw.
  rewrite (bind_Return _ _ _ _ _ Hw). unfold file_write. simpl.
  rewrite lookup_insert_eq. by rewrite !insert_insert_eq.
Qed.

Lemma write_config_Return p o w w' :
  write_config p o w = (Return (), w') →
  files w !! p ≠ Some Directory ∧ utf8_ok (dumps o) = true.
Proof.
  unfold write_config. intros H. unfold bind at 1 in H. unfold open_write in H.
  split.
  - intros Hd. by rewrite Hd in H.
  - destruct (files w !! p) as [[] |]; try done;
      unfold bind in H;
      destruct (json_dump o p _) as [[[]| |] w2] eqn:E; try done;
      unfold json_dump in E; apply write_chunks_Return in E;
      by rewrite <- utf8_ok_concat, iterencode_concat in E.
Qed.

(** A run that gets past the update in memory and whose write returns
    prints its three lines and returns. *)
Lemma update_ok platform config_path w resources text config config' :
  table_get platform platform_resources = Some resources →
  files w !! config_path = Some (RegularFile text) →
  utf8_ok text = true →
  loads text = Some config →
  set_bundle_resources resources config = Return config' →
  utf8_ok (dumps config') = true →
  update_tauri_config platform config_path w =
    (Return (),
     World (<[config_path := RegularFile (dumps config' ++ [newline])]> (files w))
       (((stdout w ++ (py "Successfully updated " ++ config_path) ++ [newline])
           ++ (py "Platform: " ++ platform) ++ [newline])
          ++ (py "Resources: " ++ repr_list resources) ++ [newline])
       (stderr w)
       (EvOpenWrite config_path :: EvOpenRead config_path :: EvExists config_path
          :: trace w)).
Proof.
  intros Hget Hf Hu Hl Hs Hd.
  rewrite (update_loaded _ _ _ _ _ Hget Hf Hu), Hl, Hs.
  erewrite bind_Return; last by (apply write_config_ok; [simpl; by rewrite Hf | done]).
  done.
Qed.

(** When the read of the file raises, so does the run, with nothing
    written. *)
Lemma update_read_raises platform config_path w resources e :
  table_get platform platform_resources = Some resources →
  is_Some (files w !! config_path) →
  read_text config_path (log (EvExists config_path) w)
    = (Raise e, after_read config_path w) →
  update_tauri_config platform config_path w = (Raise e, after_read config_path w).
Proof.
  intros Hget Hf Hr. unfold update_tauri_config. rewrite Hget.
  rewrite (bind_Return _ _ _ _ _ (path_exists_eval _ _)).
  rewrite bool_decide_eq_true_2 by done. change (negb true) with false. cbv iota.
  apply bind_Raise. unfold json_load. by apply bind_Raise.
Qed.

Lemma update_directory platform config_path w resources :
  table_get platform platform_resources = Some resources →
  files w !! config_path = Some Directory →
  update_tauri_config platform config_path w
    = (Raise IsADirectoryError, after_read config_path w).
Proof.
  intros Hget Hf. apply (update_read_raises _ _ _ _ _ Hget); [eauto |].
  unfold read_text. cbn [files log]. by rewrite Hf.
Qed.

Lemma update_undecodable platform config_path w resources text :
  table_get platform platform_resources = Some resources →
  files w !! config_path = Some (RegularFile text) →
  utf8_ok text = false →
  update_tauri_config platform config_path w
    = (Raise UnicodeDecodeError, after_read config_path w).
Proof.
  intros Hget Hf Hu. apply (update_read_raises _ _ _ _ _ Hget); [eauto |].
  unfold read_text. cbn [files log]. by rewrite Hf, Hu.
Qed.

(** The converse: what a run that returns has done. *)
Lemma update_Return platform config_path w w' :
  update_tauri_config platform config_path w = (Return (), w') →
  ∃ resources text config config',
    table_get platform platform_resources = Some resources ∧
    files w !! config_path = Some (RegularFile text) ∧
    utf8_ok text = true ∧
    loads text = Some config ∧
    set_bundle_resources resources config = Return config' ∧
    utf8_ok (dumps config') = true.
Proof.
  intros H.
  destruct (table_get platform platform_resources) as [resources |] eqn:Hget;
    [| by rewrite update_unsupported in H].
  destruct (files w !! config_path) as [[text |] |] eqn:Hf;
    [| by rewrite (update_directory _ _ _ _ Hget Hf) in H
     | by rewrite (update_missing _ _ _ _ Hget Hf) in H].
  destruct (utf8_ok text) eqn:Hu;
    [| by rewrite (update_undecodable _ _ _ _ _ Hget Hf Hu) in H].
  rewrite (update_loaded _ _ _ _ _ Hget Hf Hu) in H.
  destruct (loads text) as [config |] eqn:Hl; [| done].
  destruct (set_bundle_resources resources config) as [config' | |] eqn:Hs; try done.
  unfold bind at 1 in H.
  destruct (write_config config_path config' _) as [[[] | |] w1] eqn:Hw; try done.
  apply write_config_Return in Hw as [_ Hw].
  exists resources, text, config, config'. repeat split; done.
Qed.

(** ** The confirmation on standard output *)

Lemma count_lines_app a b : count_lines (a ++ b) = (count_lines a + count_lines b)%nat.
Proof. unfold count_lines. by rewrite filter_app, length_app. Qed.

Lemma count_lines_none s : newline ∉ s → count_lines s = 0%nat.
Proof.
  unfold count_lines. induction s as [| c s IH]; [done |].
  rewrite not_elem_of_cons. intros [Hc Hs].
  rewrite filter_cons_False by congruence. auto.
Qed.

(** C8, as the specification states it, fails: this run returns and its
    confirmation is not two lines. *)
Lemma confirmation_not_two_lines :
  ∃ w',
    update_tauri_config (py "linux-x86_64") (py "tauri.conf.json")
      (World {[ py "tauri.conf.json" := RegularFile (py "{}") ]} [] [] [])
      = (Return (), w') ∧
    count_lines (stdout w') ≠ 2%nat.
Proof.
  exists (update_tauri_config (py "linux-x86_64") (py "tauri.conf.json")
            (World {[ py "tauri.conf.json" := RegularFile (py "{}") ]} [] [] [])).2.
  split; [vm_compute; reflexivity | vm_compute; discriminate].
Qed.

(** C8, amended. A run that returns has written three lines on standard
    output, and nothing on the error stream: the status message with the
    path, the platform, and the list of resources as Python prints it.
    They are exactly three lines when the path has no line break.  The
    exit status is 0. *)
Theorem confirmation_three_lines platform config_path w w' :
  update_tauri_config platform config_path w = (Return (), w') →
  ∃ resources confirmation,
    table_get platform platform_resources = Some resources ∧
    confirmation =
      (py "Successfully updated " ++ config_path) ++ [newline]
        ++ (py "Platform: " ++ platform) ++ [newline]
        ++ (py "Resources: " ++ repr_list resources) ++ [newline] ∧
    stdout w' = stdout w ++ confirmation ∧
    stderr w' = stderr w ∧
    (newline ∉ config_path → count_lines confirmation = 3%nat) ∧
    exit_status (Return () : result ()) = 0%Z.
Proof.
  intros H.
  destruct (update_Return _ _ _ _ H)
    as (resources & text & config & config' & Hget & Hf & Hu & Hl & Hs & Hd).
  pose proof (update_ok _ _ _ _ _ _ _ Hget Hf Hu Hl Hs Hd) as Hok.
  rewrite H in Hok. apply (f_equal snd) in Hok. cbn [snd] in Hok. subst w'.
  exists resources, ((py "Successfully updated " ++ config_path) ++ [newline]
        ++ (py "Platform: " ++ platform) ++ [newline]
        ++ (py "Resources: " ++ repr_list resources) ++ [newline]).
  split; [done |]. split; [reflexivity |]. cbn [stdout stderr].
  split; [by rewrite <- !(assoc_L (++)) |]. split; [done |]. split; [| done].
  intros Hp.
  assert (platform ∈ choices) as Hin by (apply table_get_choices; eauto).
  rewrite !count_lines_app, (count_lines_none _ Hp).
  revert Hin Hget. unfold choices. rewrite !elem_of_cons, elem_of_nil.
  intros [-> | [-> | [-> | [-> | []]]]] Hget; vm_compute in Hget;
    injection Hget as <-; vm_compute; reflexivity.
Qed.

Lemma confirmation_three_lines_witness :
  ∃ resources confirmation,
    table_get (py "linux-x86_64") platform_resources = Some resources ∧
    confirmation =
      (py "Successfully updated " ++ py "tauri.conf.json") ++ [newline]
        ++ (py "Platform: " ++ py "linux-x86_64") ++ [newline]
        ++ (py "Resources: " ++ repr_list resources) ++ [newline] ∧
    stdout (update_tauri_config (py "linux-x86_64") (py "tauri.conf.json")
      (World {[ py "tauri.conf.json" := RegularFile (py "{}") ]} [] [] [])).2
      = [] ++ confirmation ∧
    stderr (update_tauri_config (py "linux-x86_64") (py "tauri.conf.json")
      (World {[ py "tauri.conf.json" := RegularFile (py "{}") ]} [] [] [])).2 = [] ∧
    (newline ∉ py "tauri.conf.json" → count_lines confirmation = 3%nat) ∧
    exit_status (Return () : result ()) = 0%Z.
Proof.
  apply (confirmation_three_lines (py "linux-x86_64") (py "tauri.conf.json")
           (World {[ py "tauri.conf.json" := RegularFile (py "{}") ]} [] [] [])).
  vm_compute. reflexivity.
Defined.

(** ** A document without [bundle] *)

Lemma dict_set_absent k v d : dict_get k d = None → dict_set k v d = d ++ [(k, v)].
Proof.
  induction d as [| [k0 v0] d IH]; simpl; [done |].
  destruct (str_eqb k0 k); [done |]. intros H. by rewrite IH.
Qed.

(** C4. Applying the resources of [linux-x86_64] to [{"otherKey": 1}]
    gives [{"otherKey": 1, "bundle": {"resources": [...]}}] with the two
    Linux paths; that text is what [json.load] reads the first document
    from.  In general a document without a [bundle] key gets one at its
    end, a dictionary whose only key is [resources]. *)
Theorem missing_bundle_created :
  (∃ resources,
     table_get (py "linux-x86_64") platform_resources = Some resources ∧
     loads ([ch "{"; quote] ++ py "otherKey" ++ [quote] ++ py ": 1}")
       = Some (JDict [(py "otherKey", JInt 1)]) ∧
     set_bundle_resources resources (JDict [(py "otherKey", JInt 1)]) =
       Return (JDict [(py "otherKey", JInt 1);
                      (py "bundle",
                       JDict [(py "resources",
                               JList [JStr (py "binaries/linux-x86_64/ffmpeg");
                                      JStr (py "binaries/linux-x86_64/ffprobe")])])])) ∧
  ∀ resources d,
    dict_get (py "bundle") d = None →
    set_bundle_resources resources (JDict d) =
      Return (JDict (d ++ [(py "bundle",
                            JDict [(py "resources", JList (map JStr resources))])])).
Proof.
  split.
  - eexists. split; [vm_compute; reflexivity |]. split; vm_compute; reflexivity.
  - intros resources d Hd. rewrite set_bundle_resources_dict, Hd.
    by rewrite dict_set_absent.
Qed.
(** ** Numbers: [int.__repr__] and [NUMBER_RE] *)

Lemma span_app f a r :
  forallb f a = true →
  match r with [] => true | c :: _ => negb (f c) end = true →
  span f (a ++ r) = (a, r).
Proof.
  intros Ha Hr. induction a as [| c a IH]; simpl in *.
  - destruct r as [| c r]; [done |]. simpl. by destruct (f c).
  - apply andb_prop in Ha as [-> Ha]. by rewrite IH.
Qed.

Lemma span_spec f s a b :
  span f s = (a, b) →
  s = a ++ b ∧ forallb f a = true ∧
  match b with [] => true | c :: _ => negb (f c) end = true.
Proof.
  revert a b. induction s as [| c s IH]; intros a b; simpl.
  - intros [= <- <-]. done.
  - destruct (f c) eqn:E.
    + destruct (span f s) as [a' b']. intros [= <- <-].
      destruct (IH _ _ eq_refl) as (-> & Ha & Hb). simpl. by rewrite E, Ha.
    + intros [= <- <-]. simpl. by rewrite E.
Qed.

Lemma span_all f a : forallb f a = true → span f a = (a, []).
Proof. intros Ha. rewrite <- (app_nil_r a) at 1. by apply span_app. Qed.

Lemma uint_chars_digits u : forallb is_digit (uint_chars u) = true.
Proof. induction u; simpl; auto. Qed.

Lemma chars_uint_chars u : chars_uint (uint_chars u) = u.
Proof. induction u; simpl; congruence. Qed.

(** The digits of [Z.to_int] have no leading zero. *)
Lemma to_int_norm z : norm (Z.to_int z) = Z.to_int z.
Proof. by rewrite <- (DecimalZ.to_of (Z.to_int z)), DecimalZ.of_to. Qed.

(** Character and string literals as numerals. *)
Ltac norm_ch :=
  repeat match goal with
    | |- context [ch ?a] =>
        let v := eval vm_compute in (ch a) in change (ch a) with v
    | |- context [py ?a] =>
        let v := eval vm_compute in (py a) in change (py a) with v
    end.

Lemma match_int_uint u :
  unorm u = u →
  match_int (uint_chars u) = Some (uint_chars u, []).
Proof.
  intros Hu. unfold match_int. norm_ch.
  destruct u as [| u | u | u | u | u | u | u | u | u | u];
    try discriminate;
    try (cbn -[span];
         rewrite (span_all is_digit (uint_chars u)) by (auto using uint_chars_digits);
         reflexivity).
  unfold unorm in Hu. rewrite nzhead_D0 in Hu.
  destruct (nzhead u) eqn:E.
  all: try (injection Hu as <-; reflexivity).
  all: exfalso; first [discriminate | by eapply (nzhead_nonzero u)].
Qed.

Lemma to_int_canonical z :
  match Z.to_int z with
  | Pos u => unorm u = u
  | Neg u => unorm u = u
  end.
Proof.
  pose proof (to_int_norm z) as H. destruct (Z.to_int z) as [u | u]; simpl in H.
  - congruence.
  - destruct (nzhead u) eqn:E; try discriminate;
      injection H as <-; unfold unorm; by rewrite E.
Qed.

Lemma int_repr_nonempty z : int_repr z ≠ [].
Proof.
  unfold int_repr. pose proof (to_int_canonical z) as H.
  destruct (Z.to_int z) as [u | u]; [| done].
  destruct u; done.
Qed.

Lemma match_number_int_repr z : match_number (int_repr z) = Some (JInt z, []).
Proof.
  unfold match_number.
  assert (match_int (int_repr z) = Some (int_repr z, [])) as ->.
  { unfold int_repr. pose proof (to_int_canonical z) as H.
    destruct (Z.to_int z) as [u | u].
    - by apply match_int_uint.
    - pose proof (match_int_uint u H) as Hm. revert Hm.
      unfold match_int. norm_ch. cbn -[span].
      destruct (uint_chars u) as [| c s] eqn:E; [done |].
      assert ((c =? 45) = false) as ->.
      { pose proof (uint_chars_digits u) as Hd. rewrite E in Hd. simpl in Hd.
        apply andb_prop in Hd as [Hd _]. unfold is_digit in Hd.
        apply andb_prop in Hd as [Hd _]. apply N.leb_le in Hd.
        apply N.eqb_neq. lia. }
      cbn -[span]. destruct (c =? 48); [intros ?; by simplify_eq/= |].
      destruct (is_digit c); [| done]. destruct (span is_digit s) as [ds r].
      intros ?; by simplify_eq/=. }
  simpl. do 2 f_equal. unfold parse_int, int_repr.
  rewrite <- (DecimalZ.of_to z) at 2.
  destruct (Z.to_int z) as [u | u].
  - destruct (uint_chars u) as [| c s] eqn:E.
    + destruct u; done.
    + assert ((c =? ch "-") = false) as ->.
      { pose proof (uint_chars_digits u) as Hd. rewrite E in Hd. simpl in Hd.
        apply andb_prop in Hd as [Hd _]. unfold is_digit in Hd.
        apply andb_prop in Hd as [Hd _]. apply N.leb_le in Hd.
        apply N.eqb_neq. vm_compute (ch "-"). lia. }
      by rewrite <- E, chars_uint_chars.
  - rewrite N.eqb_refl. by rewrite chars_uint_chars.
Qed.

Lemma follow_not_digit r :
  follow_ok r = true →
  match r with [] => true | c :: _ => negb (is_digit c) end = true.
Proof.
  destruct r as [| c r]; [done |]. unfold follow_ok. norm_ch. unfold newline, is_digit.
  intros [H | H]%orb_prop; apply N.eqb_eq in H; by subst.
Qed.

Lemma span_follow s a b r :
  span is_digit s = (a, b) → follow_ok r = true →
  span is_digit (s ++ r) = (a, b ++ r).
Proof.
  intros Hs Hr. destruct (span_spec _ _ _ _ Hs) as (-> & Ha & Hb).
  rewrite <- (assoc_L (++)). apply span_app; [done |].
  destruct b as [| c b]; [by apply follow_not_digit | done].
Qed.

Lemma match_int_follow s i r0 r :
  match_int s = Some (i, r0) → follow_ok r = true →
  match_int (s ++ r) = Some (i, r0 ++ r).
Proof.
  intros Hs Hr.
  assert (∀ sign s1,
    match s1 with
    | c :: s' =>
        if c =? ch "0" then Some (sign ++ [c], s')
        else if is_digit c
             then let '(ds, r) := span is_digit s' in Some (sign ++ c :: ds, r)
             else None
    | [] => None
    end = Some (i, r0) →
    match s1 ++ r with
    | c :: s' =>
        if c =? ch "0" then Some (sign ++ [c], s')
        else if is_digit c
             then let '(ds, r) := span is_digit s' in Some (sign ++ c :: ds, r)
             else None
    | [] => None
    end = Some (i, r0 ++ r)) as Hbody.
  { intros sign [| c s']; [done |]. cbn [app].
    destruct (c =? ch "0"); [intros ?; by simplify_eq |].
    destruct (is_digit c); [| done].
    destruct (span is_digit s') as [ds r1] eqn:E.
    rewrite (span_follow _ _ _ _ E Hr). intros ?; by simplify_eq. }
  unfold match_int in *. destruct s as [| c s]; [done |]. cbn [app].
  destruct (c =? ch "-"); [exact (Hbody [c] s Hs) | exact (Hbody [] (c :: s) Hs)].
Qed.

Lemma match_frac_follow s f r0 r :
  match_frac s = (f, r0) → follow_ok r = true →
  match_frac (s ++ r) = (f, r0 ++ r).
Proof.
  intros Hs Hr. unfold match_frac in *. destruct s as [| c s].
  - simplify_eq. destruct r as [| c r]; [done |]. cbn [app].
    assert ((c =? ch ".") = false) as ->; [| done].
    unfold follow_ok in Hr. revert Hr. norm_ch. unfold newline.
    intros [H | H]%orb_prop; apply N.eqb_eq in H; by subst.
  - cbn [app]. destruct (c =? ch "."); [| by simplify_eq].
    destruct (span is_digit s) as [ds r1] eqn:E.
    rewrite (span_follow _ _ _ _ E Hr). destruct ds; by simplify_eq.
Qed.

Lemma match_exp_follow s e r0 r :
  match_exp s = (e, r0) → follow_ok r = true →
  match_exp (s ++ r) = (e, r0 ++ r).
Proof.
  intros Hs Hr.
  assert (match r with
          | [] => true
          | c :: _ => negb ((c =? ch "e") || (c =? ch "E")) &&
                      negb ((c =? ch "-") || (c =? ch "+"))
          end = true) as Hr'.
  { destruct r as [| c r]; [done |]. unfold follow_ok in Hr. revert Hr.
    norm_ch. unfold newline.
    intros [H | H]%orb_prop; apply N.eqb_eq in H; by subst. }
  unfold match_exp in *. destruct s as [| c s].
  - simplify_eq. destruct r as [| c r]; [done |]. cbn [app].
    apply andb_prop in Hr' as [Hr' _]. apply negb_true_iff in Hr'. by rewrite Hr'.
  - cbn [app]. destruct ((c =? ch "e") || (c =? ch "E")); [| by simplify_eq].
    destruct s as [| g s].
    + cbn [app span] in *. simplify_eq. destruct r as [| c' r]; [done |].
      apply andb_prop in Hr' as [_ Hr']. apply negb_true_iff in Hr'. rewrite Hr'.
      pose proof (follow_not_digit _ Hr) as Hd. cbn in Hd.
      apply negb_true_iff in Hd. cbn [span]. by rewrite Hd.
    + cbn [app]. destruct ((g =? ch "-") || (g =? ch "+")).
      * destruct (span is_digit s) as [ds r1] eqn:E.
        rewrite (span_follow _ _ _ _ E Hr). destruct ds; by simplify_eq.
      * destruct (span is_digit (g :: s)) as [ds r1] eqn:E.
        change (g :: s ++ r) with ((g :: s) ++ r).
        rewrite (span_follow _ _ _ _ E Hr). destruct ds; by simplify_eq.
Qed.

Lemma match_number_follow s v r0 r :
  match_number s = Some (v, r0) → follow_ok r = true →
  match_number (s ++ r) = Some (v, r0 ++ r).
Proof.
  intros Hs Hr. unfold match_number in *.
  destruct (match_int s) as [[i r1] |] eqn:Ei; [| done].
  rewrite (match_int_follow _ _ _ _ Ei Hr). cbn [mbind option_bind] in *.
  destruct (match_frac r1) as [f r2] eqn:Ef.
  rewrite (match_frac_follow _ _ _ _ Ef Hr).
  destruct (match_exp r2) as [e r3] eqn:Ee.
  rewrite (match_exp_follow _ _ _ _ Ee Hr).
  destruct f, e; by simplify_eq.
Qed.

(** ** Strings: [encode_basestring] and [scanstring] *)

Lemma hex_val_digit n : n < 16 → hex_val (hex_digit n) = Some n.
Proof.
  intros Hn. destruct n as [| p]; [reflexivity |].
  do 4 (try destruct p as [p | p |]); try reflexivity; lia.
Qed.

Lemma decode_escape c tail :
  c < 32 →
  decode_uXXXX (ch "0" :: ch "0" :: hex_digit (c / 16) :: hex_digit (c mod 16) :: tail)
    = Some (c, tail).
Proof.
  intros Hc. unfold decode_uXXXX.
  change (hex_val (ch "0")) with (Some 0).
  rewrite !hex_val_digit; [| apply N.Div0.div_lt_upper_bound; lia | apply N.mod_lt; lia].
  cbn [mbind option_bind]. do 2 f_equal.
  pose proof (N.div_mod c 16). lia.
Qed.

(** One character of the string, as the encoder escapes it, is read back
    as that character. *)
Lemma scanstring_escape c fuel tail :
  scanstring (S fuel) (escape_char c ++ tail) =
    '(t, r) ← scanstring fuel tail; Some (c :: t, r).
Proof.
  unfold escape_char, quote, backslash. norm_ch.
  repeat match goal with
    | |- context [if ?c =? ?k then _ else _] =>
        destruct (N.eqb_spec c k) as [-> | ?]; [reflexivity |]
    end.
  destruct (c <? 32) eqn:E.
  - apply N.ltb_lt in E. cbn [app].
    change (scanstring (S fuel) (92 :: 117 :: ?x)) with
      ('(uni, r) ← decode_uXXXX x;
       '(c', r') ← join_surrogates uni r;
       '(t, r'') ← scanstring fuel r';
       Some (c' :: t, r'')).
    pose proof (decode_escape c tail E) as Hd. revert Hd. norm_ch. intros ->.
    cbn [mbind option_bind]. unfold join_surrogates.
    assert (is_high_surrogate c = false) as ->; [| reflexivity].
    unfold is_high_surrogate. apply andb_false_iff. left. apply N.leb_gt. lia.
  - cbn [app scanstring]. unfold quote, backslash.
    destruct (N.eqb_spec c 34) as [-> | _]; [done |].
    destruct (N.eqb_spec c 92) as [-> | _]; [done |]. by rewrite E.
Qed.

Lemma scanstring_encoded s : ∀ fuel rest,
  (length s < fuel)%nat →
  scanstring fuel (flat_map escape_char s ++ quote :: rest) = Some (s, rest).
Proof.
  induction s as [| c s IH]; intros fuel rest Hf.
  - destruct fuel; [lia |]. reflexivity.
  - destruct fuel; [simpl in Hf; lia |]. cbn [flat_map].
    rewrite <- (assoc_L (++)), scanstring_escape, IH by (simpl in Hf; lia).
    reflexivity.
Qed.

Lemma escape_char_length c : (1 ≤ length (escape_char c))%nat.
Proof.
  unfold escape_char.
  repeat match goal with
    | |- context [if ?b then _ else _] => destruct b
    end; simpl; lia.
Qed.

Lemma flat_map_escape_length s : (length s ≤ length (flat_map escape_char s))%nat.
Proof.
  induction s as [| c s IH]; simpl; [lia |].
  rewrite length_app. pose proof (escape_char_length c). lia.
Qed.

(** ** White space and the first character of a value *)

Lemma skip_ws_newline_indent level s : skip_ws (newline_indent level ++ s) = skip_ws s.
Proof.
  unfold newline_indent. cbn [app skip_ws]. change (is_ws newline) with true. cbv iota.
  induction (2 * level)%nat as [| n IH]; [done |]. cbn [replicate app skip_ws].
  change (is_ws space) with true. by cbv iota.
Qed.

Lemma skip_ws_id s :
  match s with [] => true | c :: _ => negb (is_ws c) end = true → skip_ws s = s.
Proof. destruct s as [| c s]; [done |]. simpl. by intros ->%negb_true_iff. Qed.

Lemma match_int_head s r : 
  match_int s = Some r →
  ∃ c t, s = c :: t ∧ (c = ch "-" ∨ is_digit c = true).
Proof.
  unfold match_int. destruct s as [| c s]; [done |]. intros H. exists c, s.
  split; [done |]. destruct (N.eqb_spec c (ch "-")) as [-> | _]; [by left |].
  right. destruct (N.eqb_spec c (ch "0")) as [-> | _]; [done |].
  by destruct (is_digit c).
Qed.

Lemma match_number_head s r :
  match_number s = Some r →
  ∃ c t, s = c :: t ∧ (c = ch "-" ∨ is_digit c = true).
Proof.
  unfold match_number. destruct (match_int s) as [ir |] eqn:E; [| done].
  intros _. by eapply match_int_head.
Qed.

(** A number at the head of the text is what [scan_once] reads. *)
Lemma scan_once_number fuel s r :
  match_number s = Some r → scan_once (S fuel) s = Some r.
Proof.
  intros H. destruct (match_number_head _ _ H) as (c & t & -> & Hc).
  cbn [scan_once]. unfold scan_scalar. rewrite H.
  assert (48 ≤ c ≤ 57 ∨ c = 45) as Hc'.
  { destruct Hc as [-> | Hc]; [by right |]. left. unfold is_digit in Hc.
    apply andb_prop in Hc as [?%N.leb_le ?%N.leb_le]. done. }
  unfold quote. norm_ch.
  repeat match goal with
    | |- context [if ?c =? ?k then _ else _] =>
        destruct (N.eqb_spec c k) as [-> | ?]; [lia |]
    end.
  done.
Qed.

Lemma value_start_cases c :
  value_start c = true →
  (48 ≤ c ≤ 57) ∨ c = 34 ∨ c = 123 ∨ c = 91 ∨ c = 110 ∨ c = 116 ∨ c = 102
  ∨ c = 45 ∨ c = 78 ∨ c = 73.
Proof.
  unfold value_start. intros [H | H]%orb_prop.
  - left. unfold is_digit in H. by apply andb_prop in H as [?%N.leb_le ?%N.leb_le].
  - right. apply bool_decide_eq_true in H. revert H. unfold quote. norm_ch.
    rewrite !elem_of_cons, elem_of_nil. naive_solver.
Qed.

Lemma value_start_not_ws s c t :
  s = c :: t → value_start c = true →
  match s with [] => true | c :: _ => negb (is_ws c) end = true.
Proof.
  intros -> H. apply value_start_cases in H. apply negb_true_iff.
  unfold is_ws. rewrite !orb_false_iff, !N.eqb_neq. lia.
Qed.

Lemma wf_list l : wf (JList l) ↔ Forall wf l.
Proof.
  change (wf (JList l)) with (foldr (λ v P, wf v ∧ P) True l).
  induction l as [| v l IH]; simpl; [by split |]. rewrite Forall_cons. tauto.
Qed.

Lemma wf_dict d : wf (JDict d) ↔ NoDup (map fst d) ∧ Forall (λ kv, wf kv.2) d.
Proof.
  change (wf (JDict d)) with
    (NoDup (map fst d) ∧ foldr (λ kv P, wf kv.2 ∧ P) True d).
  apply and_iff_compat_l.
  induction d as [| kv d IH]; simpl; [by split |]. rewrite Forall_cons. tauto.
Qed.

Lemma float_token_spec lit :
  float_token lit = true →
  match_number lit = Some (JFloat lit, []) ∨
  lit ∈ [py "NaN"; py "Infinity"; py "-Infinity"].
Proof.
  unfold float_token. intros [H | H]%orb_prop.
  - left. destruct (match_number lit) as [[[] [|]] |]; try done.
    apply str_eqb_eq in H. by subst.
  - right. by apply bool_decide_eq_true in H.
Qed.

Lemma dumps_head level o :
  wf o → ∃ c t, dumps_at level o = c :: t ∧ value_start c = true.
Proof.
  destruct o as [| [] | z | lit | s | [| v l] | [| kv d]]; intros Hwf;
    try (eexists _, _; split; [reflexivity | reflexivity]).
  - pose proof (match_number_int_repr z) as H.
    destruct (match_number_head _ _ H) as (c & t & E & Hc). exists c, t.
    split; [done |]. unfold value_start.
    destruct Hc as [-> | Hc]; [vm_compute; reflexivity | by rewrite Hc].
  - destruct (float_token_spec _ Hwf) as [H | H].
    + destruct (match_number_head _ _ H) as (c & t & E & Hc). exists c, t.
      split; [done |]. unfold value_start.
      destruct Hc as [-> | Hc]; [vm_compute; reflexivity | by rewrite Hc].
    + revert H. rewrite !elem_of_cons, elem_of_nil.
      intros [-> | [-> | [-> | []]]]; eexists _, _; (split; [reflexivity | reflexivity]).
Qed.

(** ** Lists and dictionaries *)

Lemma dict_of_pairs_app acc d :
  NoDup (map fst (acc ++ d)) →
  fold_left (λ d kv, dict_set kv.1 kv.2 d) d acc = acc ++ d.
Proof.
  revert acc. induction d as [| [k v] d IH]; intros acc Hnd; simpl.
  - by rewrite app_nil_r.
  - rewrite dict_set_absent.
    + rewrite IH; rewrite <- (assoc_L (++)); done.
    + apply dict_get_None_keys. rewrite map_app in Hnd. simpl in Hnd.
      apply NoDup_app in Hnd as (_ & Hnd & _). intros Hin.
      apply (Hnd k Hin). by left.
Qed.

Lemma dict_of_pairs_NoDup d : NoDup (map fst d) → dict_of_pairs d = d.
Proof. intros H. unfold dict_of_pairs. by rewrite (dict_of_pairs_app [] d). Qed.

Lemma follow_ok_newline_indent level s : follow_ok (newline_indent level ++ s) = true.
Proof. reflexivity. Qed.

Lemma array_items_dumps level l :
  Forall (λ v, wf v ∧ ∀ level fuel rest,
            (scan_fuel v ≤ fuel)%nat → follow_ok rest = true →
            scan_once fuel (dumps_at level v ++ rest) = Some (v, rest)) l →
  l ≠ [] →
  ∀ fuel rest,
    (foldr (λ v n, S (scan_fuel v + n)) 0%nat l ≤ fuel)%nat →
    array_items fuel
      (join (ch "," :: newline_indent (S level)) (map (dumps_at (S level)) l)
         ++ newline_indent level ++ ch "]" :: rest)
    = Some (l, rest).
Proof.
  induction 1 as [| v l [Hwf Hv] Hl IH]; [done |]. intros _ fuel rest Hf.
  cbn [foldr] in Hf. destruct fuel as [| fuel]; [lia |].
  cbn [array_items]. destruct l as [| v' l].
  - cbn [map join]. rewrite Hv by (done || cbn [foldr] in Hf; lia).
    cbn [mbind option_bind]. rewrite skip_ws_newline_indent. reflexivity.
  - change (join ?sep (map ?f (v :: v' :: l)))
      with (f v ++ sep ++ join sep (map f (v' :: l))).
    rewrite <- !(assoc_L (++)). rewrite Hv by (done || lia).
    cbn [mbind option_bind app skip_ws]. change (is_ws (ch ",")) with false. cbv iota.
    change (ch "," =? ch "]") with false. change (ch "," =? ch ",") with true. cbv iota.
    rewrite skip_ws_newline_indent.
    destruct (dumps_head (S level) v') as (c & t & E & Hc);
      [by inversion Hl as [| ? ? [? _] _] |].
    rewrite skip_ws_id.
    2: { change (map ?f (v' :: l)) with (f v' :: map f l).
         destruct (map (dumps_at (S level)) l); cbn [join]; rewrite E;
           by eapply value_start_not_ws. }
    rewrite IH by (done || lia). reflexivity.
Qed.

Lemma join_items_quote sep (d : list (list N * json)) (f : list N * json → list N) tail :
  d ≠ [] →
  ∃ X, join sep (map (λ kv, encode_basestring kv.1 ++ f kv) d) ++ tail = quote :: X.
Proof.
  destruct d as [| kv [| kv' d]]; [done | |]; intros _; eexists; reflexivity.
Qed.

Lemma object_items_dumps level d :
  Forall (λ kv, wf kv.2 ∧ ∀ level fuel rest,
            (scan_fuel kv.2 ≤ fuel)%nat → follow_ok rest = true →
            scan_once fuel (dumps_at level kv.2 ++ rest) = Some (kv.2, rest)) d →
  d ≠ [] →
  ∀ fuel rest X,
    (foldr (λ kv n, S (scan_fuel kv.2 + n)) 0%nat d ≤ fuel)%nat →
    join (ch "," :: newline_indent (S level))
      (map (λ kv, encode_basestring kv.1 ++ py ": " ++ dumps_at (S level) kv.2) d)
      ++ newline_indent level ++ ch "}" :: rest
    = quote :: X →
    object_items fuel X = Some (d, rest).
Proof.
  induction 1 as [| [k v] d [Hwf Hv] Hd IH]; [done |]. intros _ fuel rest X Hf HX.
  cbn [foldr snd] in Hf. destruct fuel as [| fuel]; [lia |]. cbn [snd] in *.
  assert (∃ tail,
    X = flat_map escape_char k ++ quote :: ch ":" :: space :: dumps_at (S level) v ++ tail ∧
    follow_ok tail = true ∧
    match skip_ws tail with
    | c2 :: r3 =>
        if c2 =? ch "}" then Some ([(k, v)], r3)
        else if c2 =? ch "," then
          match skip_ws r3 with
          | c3 :: r4 =>
              if c3 =? quote then
                '(kvs, r5) ← object_items fuel r4; Some ((k, v) :: kvs, r5)
              else None
          | [] => None
          end
        else None
    | [] => None
    end = Some ((k, v) :: d, rest)) as (tail & -> & Htail & Hloop).
  { destruct d as [| kv' d].
    - exists (newline_indent level ++ ch "}" :: rest). split; [| split; [done |]].
      + cbn [map join fst snd] in HX. unfold encode_basestring in HX.
        rewrite <- !(assoc_L (++)) in HX. cbn [app] in HX. rewrite <- (assoc_L (++)) in HX.
        by injection HX as <-.
      + rewrite skip_ws_newline_indent. reflexivity.
    - destruct (join_items_quote (ch "," :: newline_indent (S level)) (kv' :: d)
                  (λ kv, py ": " ++ dumps_at (S level) kv.2)
                  (newline_indent level ++ ch "}" :: rest)) as [X' HX']; [done |].
      exists (ch "," :: newline_indent (S level) ++ quote :: X').
      split; [| split; [done |]].
      + change (join ?sep (map ?f ((k, v) :: kv' :: d)))
          with (f (k, v) ++ sep ++ join sep (map f (kv' :: d))) in HX.
        cbn [fst snd] in HX. rewrite <- !(assoc_L (++)) in HX.
        rewrite HX' in HX. unfold encode_basestring in HX.
        cbn [app] in HX. rewrite <- ?(assoc_L (++)) in HX. cbn [app] in HX.
        by injection HX as <-.
      + cbn [skip_ws]. change (is_ws (ch ",")) with false. cbv iota.
        change (ch "," =? ch "}") with false. change (ch "," =? ch ",") with true.
        cbv iota. rewrite skip_ws_newline_indent. cbn [skip_ws].
        change (is_ws quote) with false. cbv iota. rewrite N.eqb_refl.
        rewrite (IH ltac:(done) fuel rest X' ltac:(lia) HX'). reflexivity. }
  cbn [object_items]. rewrite scanstring_encoded.
  2: { rewrite length_app. pose proof (flat_map_escape_length k). simpl. lia. }
  cbn [mbind option_bind skip_ws]. change (is_ws (ch ":")) with false. cbv iota.
  rewrite N.eqb_refl. cbn [skip_ws]. change (is_ws space) with true. cbv iota.
  destruct (dumps_head (S level) v Hwf) as (c & t & E & Hc).
  rewrite (skip_ws_id (dumps_at (S level) v ++ tail))
    by (rewrite E; by eapply value_start_not_ws).
  rewrite Hv by (done || lia). cbn [mbind option_bind]. exact Hloop.
Qed.

Lemma scan_once_list fuel s :
  scan_once (S fuel) (ch "[" :: s) =
    match skip_ws s with
    | c1 :: r =>
        if c1 =? ch "]" then Some (JList [], r)
        else '(vs, r') ← array_items fuel (c1 :: r); Some (JList vs, r')
    | [] => None
    end.
Proof. reflexivity. Qed.

Lemma scan_once_dict fuel s :
  scan_once (S fuel) (ch "{" :: s) =
    match skip_ws s with
    | c1 :: r =>
        if c1 =? ch "}" then Some (JDict [], r)
        else if c1 =? quote then
          '(pairs, r') ← object_items fuel r; Some (JDict (dict_of_pairs pairs), r')
        else None
    | [] => None
    end.
Proof. reflexivity. Qed.

Lemma scan_once_str fuel s :
  scan_once (S fuel) (quote :: s) = '(t, r) ← scanstring (length s) s; Some (JStr t, r).
Proof. reflexivity. Qed.

(** [scan_once] reads back the text of a well-formed document, with
    fuel for each of its values, when a comma, a line break or the end of
    the text follows. *)
Lemma scan_once_dumps o :
  wf o → ∀ level fuel rest,
  (scan_fuel o ≤ fuel)%nat → follow_ok rest = true →
  scan_once fuel (dumps_at level o ++ rest) = Some (o, rest).
Proof.
  induction o as [| b | z | lit | s | l IH | d IH] using json_ind';
    intros Hwf level fuel rest Hf Hr;
    (destruct fuel as [| fuel]; [simpl in Hf; lia |]).
  - reflexivity.
  - destruct b; reflexivity.
  - apply scan_once_number. change (dumps_at level (JInt z)) with (int_repr z).
    by rewrite (match_number_follow _ _ _ _ (match_number_int_repr z) Hr).
  - destruct (float_token_spec _ Hwf) as [H | H].
    + apply scan_once_number. change (dumps_at level (JFloat lit)) with lit.
      by rewrite (match_number_follow _ _ _ _ H Hr).
    + revert H. rewrite !elem_of_cons, elem_of_nil.
      intros [-> | [-> | [-> | []]]]; reflexivity.
  - change (dumps_at level (JStr s)) with (quote :: flat_map escape_char s ++ [quote]).
    rewrite <- app_comm_cons, <- (assoc_L (++)), scan_once_str. cbn [app].
    rewrite scanstring_encoded; [done |].
    rewrite length_app. pose proof (flat_map_escape_length s). simpl. lia.
  - destruct l as [| v l]; [reflexivity |].
    change (dumps_at level (JList (v :: l))) with
      (ch "[" :: newline_indent (S level)
        ++ join (ch "," :: newline_indent (S level)) (map (dumps_at (S level)) (v :: l))
        ++ newline_indent level ++ [ch "]"]).
    rewrite <- app_comm_cons, <- !(assoc_L (++)), scan_once_list.
    rewrite skip_ws_newline_indent. cbn [app].
    apply wf_list in Hwf.
    assert (Forall (λ v, wf v ∧ ∀ level fuel rest,
              (scan_fuel v ≤ fuel)%nat → follow_ok rest = true →
              scan_once fuel (dumps_at level v ++ rest) = Some (v, rest)) (v :: l)) as Hall.
    { apply Forall_forall. intros x Hx. rewrite Forall_forall in Hwf, IH.
      split; [by apply Hwf |]. apply IH; [done |]. by apply Hwf. }
    pose proof (array_items_dumps level (v :: l) Hall ltac:(done) fuel rest
                  ltac:(cbn [scan_fuel] in Hf; lia)) as Hitems.
    destruct (dumps_head (S level) v) as (c & t & E & Hc);
      [by inversion Hwf |].
    assert (∃ t', join (ch "," :: newline_indent (S level))
                    (map (dumps_at (S level)) (v :: l))
                  ++ newline_indent level ++ ch "]" :: rest = c :: t') as [t' Ejoin].
    { cbn [map]. destruct (map (dumps_at (S level)) l); cbn [join]; rewrite E;
        eexists; reflexivity. }
    rewrite Ejoin in Hitems |- *.
    rewrite (skip_ws_id (c :: t'))
      by exact (value_start_not_ws (c :: t') c t' eq_refl Hc).
    assert ((c =? ch "]") = false) as ->.
    { apply value_start_cases in Hc. apply N.eqb_neq. vm_compute (ch "]"). lia. }
    by rewrite Hitems.
  - destruct d as [| kv d]; [reflexivity |].
    change (dumps_at level (JDict (kv :: d))) with
      (ch "{" :: newline_indent (S level)
        ++ join (ch "," :: newline_indent (S level))
             (map (λ kv, encode_basestring kv.1 ++ py ": " ++ dumps_at (S level) kv.2)
                (kv :: d))
        ++ newline_indent level ++ [ch "}"]).
    rewrite <- app_comm_cons, <- !(assoc_L (++)), scan_once_dict.
    rewrite skip_ws_newline_indent. cbn [app].
    apply wf_dict in Hwf as [Hnd Hwf].
    assert (Forall (λ kv, wf kv.2 ∧ ∀ level fuel rest,
              (scan_fuel kv.2 ≤ fuel)%nat → follow_ok rest = true →
              scan_once fuel (dumps_at level kv.2 ++ rest) = Some (kv.2, rest))
              (kv :: d)) as Hall.
    { apply Forall_forall. intros x Hx. rewrite Forall_forall in Hwf, IH.
      split; [by apply Hwf |]. apply IH; [done |]. by apply Hwf. }
    destruct (join_items_quote (ch "," :: newline_indent (S level)) (kv :: d)
                (λ kv, py ": " ++ dumps_at (S level) kv.2)
                (newline_indent level ++ ch "}" :: rest)) as [X HX]; [done |].
    cbv beta in HX. rewrite HX. cbn [skip_ws]. change (is_ws quote) with false.
    cbv iota. change (quote =? ch "}") with false. cbv iota. rewrite N.eqb_refl.
    rewrite (object_items_dumps level (kv :: d) Hall ltac:(done) fuel rest X
               ltac:(cbn [scan_fuel] in Hf; lia) HX).
    cbn [mbind option_bind]. by rewrite dict_of_pairs_NoDup.
Qed.

(** ** [json.loads] after [json.dumps] *)

Lemma join_length sep xs :
  (1 ≤ length sep)%nat →
  (foldr (λ x n, S (length x + n)) 0 xs ≤ length (join sep xs) + 1)%nat.
Proof.
  intros Hsep. induction xs as [| x [| y xs] IH]; cbn [foldr join] in *; [lia | lia |].
  rewrite !length_app. lia.
Qed.

Lemma scan_fuel_length o : wf o → ∀ level, (scan_fuel o ≤ length (dumps_at level o))%nat.
Proof.
  induction o as [| b | z | lit | s | l IH | d IH] using json_ind'; intros Hwf level;
    try (destruct (dumps_head level _ Hwf) as (c & t & -> & _); simpl; lia).
  - destruct l as [| v l]; [simpl; lia |].
    change (dumps_at level (JList (v :: l))) with
      (ch "[" :: newline_indent (S level)
        ++ join (ch "," :: newline_indent (S level)) (map (dumps_at (S level)) (v :: l))
        ++ newline_indent level ++ [ch "]"]).
    cbn [scan_fuel length]. rewrite !length_app.
    pose proof (join_length (ch "," :: newline_indent (S level))
                  (map (dumps_at (S level)) (v :: l)) ltac:(simpl; lia)) as Hj.
    assert (foldr (λ v n, S (scan_fuel v + n)) 0 (v :: l)
            ≤ foldr (λ x n, S (length x + n)) 0 (map (dumps_at (S level)) (v :: l)))%nat.
    { apply wf_list in Hwf. revert IH Hwf. generalize (v :: l). clear.
      induction l as [| v l IHl]; [simpl; lia |].
      intros [Hv IH]%Forall_cons [Hw Hwf]%Forall_cons. cbn [foldr map].
      specialize (Hv Hw (S level)). specialize (IHl IH Hwf). lia. }
    assert (∀ k, (1 ≤ length (newline_indent k))%nat) as Hn by (intros; simpl; lia).
    pose proof (Hn level). pose proof (Hn (S level)). cbn [length]. lia.
  - destruct d as [| kv d]; [simpl; lia |].
    change (dumps_at level (JDict (kv :: d))) with
      (ch "{" :: newline_indent (S level)
        ++ join (ch "," :: newline_indent (S level))
             (map (λ kv, encode_basestring kv.1 ++ py ": " ++ dumps_at (S level) kv.2)
                (kv :: d))
        ++ newline_indent level ++ [ch "}"]).
    cbn [scan_fuel length]. rewrite !length_app.
    pose proof (join_length (ch "," :: newline_indent (S level))
                  (map (λ kv, encode_basestring kv.1 ++ py ": " ++ dumps_at (S level) kv.2)
                     (kv :: d)) ltac:(simpl; lia)) as Hj.
    assert (foldr (λ kv n, S (scan_fuel kv.2 + n)) 0 (kv :: d)
            ≤ foldr (λ x n, S (length x + n)) 0
                (map (λ kv, encode_basestring kv.1 ++ py ": " ++ dumps_at (S level) kv.2)
                   (kv :: d)))%nat.
    { apply wf_dict in Hwf as [_ Hwf]. revert IH Hwf. generalize (kv :: d). clear.
      induction l as [| v l IHl]; [simpl; lia |].
      intros [Hv IH]%Forall_cons [Hw Hwf]%Forall_cons. cbn [foldr map].
      specialize (Hv Hw (S level)). specialize (IHl IH Hwf).
      rewrite !length_app. lia. }
    assert (∀ k, (1 ≤ length (newline_indent k))%nat) as Hn by (intros; simpl; lia).
    pose proof (Hn level). pose proof (Hn (S level)). cbn [length]. lia.
Qed.

(** What [json.dump] and the line break after it write is text that
    [json.load] reads back as the same document. *)
Lemma loads_dumps o : wf o → loads (dumps o ++ [newline]) = Some o.
Proof.
  intros Hwf. unfold loads, dumps.
  destruct (dumps_head 0 o Hwf) as (c & t & E & Hc).
  pose proof (scan_once_dumps o Hwf 0 (S (length (dumps_at 0 o ++ [newline]))) [newline]) as H.
  rewrite E in H |- *. cbn [app].
  assert ((c =? BOM) = false) as ->.
  { apply value_start_cases in Hc. apply N.eqb_neq. unfold BOM. lia. }
  rewrite (skip_ws_id (c :: t ++ [newline]))
    by exact (value_start_not_ws (c :: t ++ [newline]) c _ eq_refl Hc).
  cbn [app] in H. rewrite H; [reflexivity | | reflexivity].
  pose proof (scan_fuel_length o Hwf 0) as Hl. rewrite E in Hl.
  cbn [length] in *. rewrite length_app. lia.
Qed.

(** ** What [json.loads] returns is well formed *)

Lemma match_int_replay s i r :
  match_int s = Some (i, r) →
  ∀ t, no_digit_head t = true → match_int (i ++ t) = Some (i, t).
Proof.
  intros Hs t Ht.
  assert (∀ sign s1,
    match s1 with
    | c :: s' =>
        if c =? ch "0" then Some (sign ++ [c], s')
        else if is_digit c
             then let '(ds, r) := span is_digit s' in Some (sign ++ c :: ds, r)
             else None
    | [] => None
    end = Some (i, r) →
    ∃ i0 c0 i1, i = sign ++ i0 ∧ i0 = c0 :: i1 ∧
      (c0 = ch "0" ∨ is_digit c0 = true) ∧
      match i0 ++ t with
      | c :: s' =>
          if c =? ch "0" then Some (sign ++ [c], s')
          else if is_digit c
               then let '(ds, r) := span is_digit s' in Some (sign ++ c :: ds, r)
               else None
      | [] => None
      end = Some (sign ++ i0, t)) as Hbody.
  { intros sign [| c s']; [done |].
    destruct (N.eqb_spec c (ch "0")) as [-> | Hc].
    - intros ?; simplify_eq. exists [ch "0"], (ch "0"), []. repeat split; auto.
    - destruct (is_digit c) eqn:Ed; [| done].
      destruct (span is_digit s') as [ds r1] eqn:E. intros ?; simplify_eq.
      destruct (span_spec _ _ _ _ E) as (_ & Hds & _).
      exists (c :: ds), c, ds. repeat split; auto. cbn [app].
      destruct (N.eqb_spec c (ch "0")); [done |]. rewrite Ed.
      by rewrite (span_app is_digit ds t Hds Ht). }
  unfold match_int in *. destruct s as [| c s]; [done |].
  destruct (N.eqb_spec c (ch "-")) as [-> | Hc].
  - destruct (Hbody [ch "-"] s Hs) as (i0 & c0 & i1 & -> & -> & _ & H).
    cbn [app]. exact H.
  - destruct (Hbody [] (c :: s) Hs) as (i0 & c0 & i1 & -> & -> & Hc0 & H).
    cbn [app] in *.
    assert ((c0 =? ch "-") = false) as ->; [| exact H].
    apply N.eqb_neq. destruct Hc0 as [-> | Hd]; [done |].
    intros ->. done.
Qed.

Lemma match_frac_shape s f r :
  match_frac s = (f, r) →
  (f = [] ∧ r = s) ∨
  (∃ ds, f = ch "." :: ds ∧
     ∀ t, no_digit_head t = true → match_frac (f ++ t) = (f, t)).
Proof.
  unfold match_frac. destruct s as [| c s]; [intros ?; simplify_eq; by left |].
  destruct (N.eqb_spec c (ch ".")) as [-> | Hc]; [| intros ?; simplify_eq; by left].
  destruct (span is_digit s) as [[| d ds] r1] eqn:E; intros ?; simplify_eq; [by left |].
  right. exists (d :: ds). split; [done |]. intros t Ht.
  destruct (span_spec _ _ _ _ E) as (_ & Hds & _).
  cbn [app]. change (ch "." =? ch ".") with true. cbv iota.
  change (d :: ds ++ t) with ((d :: ds) ++ t).
  by rewrite (span_app is_digit (d :: ds) t Hds Ht).
Qed.

Lemma match_exp_shape s e r :
  match_exp s = (e, r) →
  (e = [] ∧ r = s) ∨
  (∃ c e', e = c :: e' ∧ (c = ch "e" ∨ c = ch "E") ∧
     ∀ t, no_digit_head t = true → match_exp (e ++ t) = (e, t)).
Proof.
  unfold match_exp. destruct s as [| c s]; [intros ?; simplify_eq; by left |].
  destruct ((c =? ch "e") || (c =? ch "E")) eqn:Ec; [| intros ?; simplify_eq; by left].
  assert (c = ch "e" ∨ c = ch "E") as Hc.
  { apply orb_prop in Ec as [?%N.eqb_eq | ?%N.eqb_eq]; auto. }
  destruct s as [| g s].
  - cbn [span]. intros ?; simplify_eq. by left.
  - destruct ((g =? ch "-") || (g =? ch "+")) eqn:Eg.
    + destruct (span is_digit s) as [[| d ds] r1] eqn:E; intros ?; simplify_eq;
        [by left |].
      right. eexists _, _. split; [reflexivity |]. split; [done |]. intros t Ht.
      destruct (span_spec _ _ _ _ E) as (_ & Hds & _).
      cbn [app]. rewrite Ec, Eg.
      change (d :: ds ++ t) with ((d :: ds) ++ t).
      by rewrite (span_app is_digit (d :: ds) t Hds Ht).
    + destruct (span is_digit (g :: s)) as [[| d ds] r1] eqn:E; intros ?; simplify_eq;
        [by left |].
      right. eexists _, _. split; [reflexivity |]. split; [done |]. intros t Ht.
      destruct (span_spec _ _ _ _ E) as (Hgs & Hds & _).
      assert (g = d) as -> by (by injection Hgs).
      cbn [app]. rewrite Ec, Eg.
      change (d :: ds ++ t) with ((d :: ds) ++ t).
      by rewrite (span_app is_digit (d :: ds) t Hds Ht).
Qed.

Lemma match_number_float s lit r :
  match_number s = Some (JFloat lit, r) → float_token lit = true.
Proof.
  unfold match_number. destruct (match_int s) as [[i r0] |] eqn:Ei; [| done].
  cbn [mbind option_bind].
  destruct (match_frac r0) as [f r1] eqn:Ef. destruct (match_exp r1) as [e r2] eqn:Ee.
  intros H.
  assert (lit = i ++ f ++ e ∧ (f ≠ [] ∨ e ≠ [])) as [-> Hne].
  { destruct f, e; simplify_eq; split; auto. }
  clear H. unfold float_token. apply orb_true_iff. left.
  assert (match_number (i ++ f ++ e) = Some (JFloat (i ++ f ++ e), [])) as ->;
    [| by rewrite (proj2 (str_eqb_eq _ _) eq_refl)].
  apply match_frac_shape in Ef as [[-> _] | (ds & -> & Hf)];
    apply match_exp_shape in Ee as [[-> _] | (c & e' & -> & Hc & He)].
  - destruct Hne as [H | H]; by destruct H.
  - pose proof (He [] eq_refl) as He'. rewrite app_nil_r in He'.
    unfold match_number.
    rewrite (match_int_replay _ _ _ Ei) by (destruct Hc as [-> | ->]; reflexivity).
    cbn [mbind option_bind app].
    assert (match_frac (c :: e') = ([], c :: e')) as ->.
    { unfold match_frac. by destruct Hc as [-> | ->]. }
    by rewrite He'.
  - unfold match_number. rewrite (match_int_replay _ _ _ Ei) by reflexivity.
    cbn [mbind option_bind]. by rewrite (Hf [] eq_refl).
  - pose proof (He [] eq_refl) as He'. rewrite app_nil_r in He'.
    unfold match_number. rewrite (match_int_replay _ _ _ Ei) by reflexivity.
    cbn [mbind option_bind].
    rewrite Hf by (destruct Hc as [-> | ->]; reflexivity).
    by rewrite He'.
Qed.

Lemma match_literal_value lit v s r : match_literal lit v s = Some r → r.1 = v.
Proof. unfold match_literal. destruct (starts_with lit s); by intros ?; simplify_eq. Qed.

Lemma match_number_wf s v r : match_number s = Some (v, r) → wf v.
Proof.
  intros E. assert ((∃ z, v = JInt z) ∨ (∃ lit, v = JFloat lit)) as [[z ->] | [lit ->]].
  { revert E. unfold match_number. destruct (match_int s) as [[i r0] |]; [| done].
    cbn [mbind option_bind].
    destruct (match_frac r0) as [f r1], (match_exp r1) as [e r2].
    destruct f, e; intros ?; simplify_eq; eauto. }
  - done.
  - exact (match_number_float _ _ _ E).
Qed.

Lemma scan_scalar_wf s v r : scan_scalar s = Some (v, r) → wf v.
Proof.
  unfold scan_scalar. destruct s as [| c s]; [done |].
  destruct (c =? ch "n"); [intros H%match_literal_value; simpl in H; by subst |].
  destruct (c =? ch "t"); [intros H%match_literal_value; simpl in H; by subst |].
  destruct (c =? ch "f"); [intros H%match_literal_value; simpl in H; by subst |].
  destruct (match_number (c :: s)) as [[v' r'] |] eqn:E.
  - intros ?; simplify_eq. by eapply match_number_wf.
  - destruct (c =? ch "N"); [intros H%match_literal_value; simpl in H; by subst |].
    destruct (c =? ch "I"); [intros H%match_literal_value; simpl in H; by subst |].
    destruct (c =? ch "-"); [intros H%match_literal_value; simpl in H; by subst |]. done.
Qed.

Lemma dict_set_Forall (P : list N * json → Prop) k v d :
  P (k, v) → Forall P d → Forall P (dict_set k v d).
Proof.
  intros Hkv. induction 1 as [| [k' v'] d Hx Hd IH]; simpl.
  - by constructor.
  - destruct (str_eqb k' k); constructor; auto.
Qed.

Lemma dict_of_pairs_wf pairs :
  Forall (λ kv, wf kv.2) pairs → wf (JDict (dict_of_pairs pairs)).
Proof.
  intros Hp. apply wf_dict. unfold dict_of_pairs.
  assert (NoDup (map fst ([] : list (list N * json))) ∧
          Forall (λ kv : list N * json, wf kv.2) []) as Hacc
    by (split; constructor).
  revert Hacc. generalize ([] : list (list N * json)).
  induction Hp as [| [k v] pairs Hv Hp IH]; intros acc [Hnd Hacc]; [done |].
  cbn [fold_left]. apply IH. split.
  - by apply dict_set_NoDup.
  - by apply dict_set_Forall.
Qed.

Lemma scan_wf n :
  (∀ s v r, scan_once n s = Some (v, r) → wf v) ∧
  (∀ s vs r, array_items n s = Some (vs, r) → Forall wf vs) ∧
  (∀ s kvs r, object_items n s = Some (kvs, r) → Forall (λ kv, wf kv.2) kvs).
Proof.
  induction n as [| n (IHv & IHa & IHo)]; [done |]. split; [| split].
  - intros [| c s] v r; [done |]. cbn [scan_once].
    destruct (c =? quote).
    { destruct (scanstring (length s) s) as [[t r'] |]; [| done].
      cbn [mbind option_bind]. intros ?; simplify_eq; exact I. }
    destruct (c =? ch "{").
    { destruct (skip_ws s) as [| c1 r1]; [done |].
      destruct (c1 =? ch "}"); [intros ?; simplify_eq; apply wf_dict; split; constructor |].
      destruct (c1 =? quote); [| done].
      destruct (object_items n r1) as [[pairs r'] |] eqn:E; [| done].
      cbn [mbind option_bind]. intros ?; simplify_eq. apply dict_of_pairs_wf. by eapply IHo. }
    destruct (c =? ch "[").
    { destruct (skip_ws s) as [| c1 r1]; [done |].
      destruct (c1 =? ch "]"); [intros ?; simplify_eq; apply wf_list; constructor |].
      destruct (array_items n (c1 :: r1)) as [[vs r'] |] eqn:E; [| done].
      cbn [mbind option_bind]. intros ?; simplify_eq. apply wf_list. by eapply IHa. }
    apply scan_scalar_wf.
  - intros s vs r. cbn [array_items].
    destruct (scan_once n s) as [[v r0] |] eqn:E; [| done]. cbn [mbind option_bind].
    destruct (skip_ws r0) as [| c r1]; [done |].
    destruct (c =? ch "]").
    { intros ?; simplify_eq. constructor; [by eapply IHv | constructor]. }
    destruct (c =? ch ","); [| done].
    destruct (array_items n (skip_ws r1)) as [[vs' r'] |] eqn:E'; [| done].
    cbn [mbind option_bind]. intros ?; simplify_eq. constructor; [by eapply IHv | by eapply IHa].
  - intros s kvs r. cbn [object_items].
    destruct (scanstring (length s) s) as [[key r0] |]; [| done].
    cbn [mbind option_bind].
    destruct (skip_ws r0) as [| c r1]; [done |].
    destruct (c =? ch ":"); [| done].
    destruct (scan_once n (skip_ws r1)) as [[v r2] |] eqn:E; [| done].
    cbn [mbind option_bind].
    destruct (skip_ws r2) as [| c2 r3]; [done |].
    destruct (c2 =? ch "}").
    { intros ?; simplify_eq. constructor; [by eapply IHv | constructor]. }
    destruct (c2 =? ch ","); [| done].
    destruct (skip_ws r3) as [| c3 r4]; [done |].
    destruct (c3 =? quote); [| done].
    destruct (object_items n r4) as [[kvs' r5] |] eqn:E'; [| done].
    cbn [mbind option_bind]. intros ?; simplify_eq. constructor; [by eapply IHv | by eapply IHo].
Qed.

(** Every document [json.loads] returns is well formed. *)
Lemma loads_wf s o : loads s = Some o → wf o.
Proof.
  unfold loads. destruct s as [| c s]; [done |].
  destruct (c =? BOM); [done |].
  destruct (scan_once _ _) as [[v r] |] eqn:E; [| done]. cbn [mbind option_bind].
  destruct (skip_ws r); [| done]. intros ?; simplify_eq.
  by eapply (proj1 (scan_wf _)).
Qed.

(** ** The text of a document is text UTF-8 encodes *)

Lemma utf8_ok_ascii s : forallb (λ c, c <? 128) s = true → utf8_ok s = true.
Proof.
  unfold utf8_ok. induction s as [| c s IH]; [done |]. cbn [forallb].
  intros [Hc Hs]%andb_prop. rewrite IH by done. apply N.ltb_lt in Hc.
  rewrite andb_true_r. unfold is_scalar, is_surrogate.
  apply andb_true_iff. split; [apply N.leb_le; lia |].
  apply negb_true_iff, andb_false_iff. left. apply N.leb_gt. lia.
Qed.

Lemma digits_graphic ds : forallb is_digit ds = true → forallb is_graphic ds = true.
Proof.
  induction ds as [| c ds IH]; [done |]. cbn [forallb].
  intros [Hc Hs]%andb_prop. rewrite IH by done. unfold is_digit in Hc.
  apply andb_prop in Hc as [Hl%N.leb_le Hc%N.leb_le]. rewrite andb_true_r.
  unfold is_graphic. apply andb_true_iff. split; apply N.ltb_lt; unfold space; lia.
Qed.

Lemma match_int_graphic s i r :
  match_int s = Some (i, r) → forallb is_graphic i = true.
Proof.
  unfold match_int.
  assert (∀ sign s1, forallb is_graphic sign = true →
    match s1 with
    | c :: s' =>
        if c =? ch "0" then Some (sign ++ [c], s')
        else if is_digit c
             then let '(ds, r) := span is_digit s' in Some (sign ++ c :: ds, r)
             else None
    | [] => None
    end = Some (i, r) → forallb is_graphic i = true) as Hbody.
  { intros sign [| c s'] Hsign; [done |].
    destruct (N.eqb_spec c (ch "0")) as [-> | _].
    - intros ?; simplify_eq. rewrite forallb_app, Hsign. reflexivity.
    - destruct (is_digit c) eqn:Ed; [| done].
      destruct (span is_digit s') as [ds r1] eqn:E. intros ?; simplify_eq.
      destruct (span_spec _ _ _ _ E) as (_ & Hds & _).
      rewrite forallb_app, Hsign. apply (digits_graphic (c :: ds)).
      cbn [forallb]. by rewrite Ed, Hds. }
  destruct s as [| c s]; [done |].
  destruct (N.eqb_spec c (ch "-")) as [-> | _];
    [exact (Hbody [ch "-"] s eq_refl) | exact (Hbody [] (c :: s) eq_refl)].
Qed.

Lemma match_frac_graphic s f r :
  match_frac s = (f, r) → forallb is_graphic f = true.
Proof.
  unfold match_frac. destruct s as [| c s]; [by intros ?; simplify_eq |].
  destruct (N.eqb_spec c (ch ".")) as [-> | _]; [| by intros ?; simplify_eq].
  destruct (span is_digit s) as [[| d ds] r1] eqn:E; intros ?; simplify_eq; [done |].
  destruct (span_spec _ _ _ _ E) as (_ & Hds & _).
  change (forallb is_graphic (d :: ds) = true). by apply digits_graphic.
Qed.

Lemma match_exp_graphic s e r :
  match_exp s = (e, r) → forallb is_graphic e = true.
Proof.
  unfold match_exp. destruct s as [| c s]; [by intros ?; simplify_eq |].
  destruct ((c =? ch "e") || (c =? ch "E")) eqn:Ec; [| by intros ?; simplify_eq].
  assert (is_graphic c = true) as Hc.
  { apply orb_prop in Ec as [->%N.eqb_eq | ->%N.eqb_eq]; reflexivity. }
  destruct s as [| g s]; [cbn [span]; by intros ?; simplify_eq |].
  destruct ((g =? ch "-") || (g =? ch "+")) eqn:Eg.
  - assert (is_graphic g = true) as Hg.
    { apply orb_prop in Eg as [->%N.eqb_eq | ->%N.eqb_eq]; reflexivity. }
    destruct (span is_digit s) as [[| d ds] r1] eqn:E; intros ?; simplify_eq; [done |].
    destruct (span_spec _ _ _ _ E) as (_ & Hds & _).
    cbn [forallb app]. rewrite Hc, Hg. by apply (digits_graphic (d :: ds)).
  - destruct (span is_digit (g :: s)) as [[| d ds] r1] eqn:E; intros ?; simplify_eq;
      [done |].
    destruct (span_spec _ _ _ _ E) as (_ & Hds & _).
    cbn [forallb app]. rewrite Hc. by apply (digits_graphic (d :: ds)).
Qed.

Lemma float_token_graphic lit : float_token lit = true → forallb is_graphic lit = true.
Proof.
  intros [H | H]%float_token_spec.
  - revert H. unfold match_number.
    destruct (match_int lit) as [[i r0] |] eqn:Ei; [| done]. cbn [mbind option_bind].
    destruct (match_frac r0) as [f r1] eqn:Ef. destruct (match_exp r1) as [e r2] eqn:Ee.
    intros H. assert (lit = i ++ f ++ e) as -> by (destruct f, e; by simplify_eq).
    rewrite !forallb_app, (match_int_graphic _ _ _ Ei), (match_frac_graphic _ _ _ Ef),
      (match_exp_graphic _ _ _ Ee). reflexivity.
  - revert H. rewrite !elem_of_cons, elem_of_nil.
    intros [-> | [-> | [-> | []]]]; reflexivity.
Qed.

Lemma int_repr_graphic z : forallb is_graphic (int_repr z) = true.
Proof.
  unfold int_repr.
  destruct (Z.to_int z) as [u | u]; cbn [forallb];
    by rewrite ?(digits_graphic _ (uint_chars_digits u)).
Qed.

Lemma graphic_ascii s : forallb is_graphic s = true → forallb (λ c, c <? 128) s = true.
Proof.
  induction s as [| c s IH]; [done |]. cbn [forallb].
  intros [[_ Hc]%andb_prop Hs]%andb_prop. by rewrite Hc, IH.
Qed.

Lemma float_token_utf8_ok lit : float_token lit = true → utf8_ok lit = true.
Proof. intros H. by apply utf8_ok_ascii, graphic_ascii, float_token_graphic. Qed.

Lemma int_repr_utf8_ok z : utf8_ok (int_repr z) = true.
Proof. apply utf8_ok_ascii, graphic_ascii, int_repr_graphic. Qed.

Lemma escape_char_utf8_ok c : is_scalar c = true → utf8_ok (escape_char c) = true.
Proof.
  intros Hc. unfold escape_char.
  repeat match goal with
    | |- context [if ?c =? ?k then _ else _] => destruct (c =? k); [reflexivity |]
    end.
  destruct (c <? 32) eqn:E; [| cbn; by rewrite Hc].
  apply N.ltb_lt in E. apply utf8_ok_ascii. cbn [forallb]. 
  assert (∀ n, n < 16 → (hex_digit n <? 128) = true) as Hh.
  { intros n Hn. unfold hex_digit. destruct (n <? 10); apply N.ltb_lt; lia. }
  rewrite !Hh; [reflexivity | apply N.mod_lt; lia | apply N.Div0.div_lt_upper_bound; lia].
Qed.

Lemma encode_basestring_utf8_ok s : utf8_ok s = true → utf8_ok (encode_basestring s) = true.
Proof.
  intros Hs. unfold encode_basestring. change (quote :: ?x) with ([quote] ++ x).
  rewrite !utf8_ok_app. change (utf8_ok [quote]) with true. rewrite andb_true_r.
  cbn [andb]. induction s as [| c s IH]; [done |]. cbn [flat_map].
  cbn [utf8_ok forallb] in Hs. apply andb_prop in Hs as [Hc Hs].
  by rewrite utf8_ok_app, (escape_char_utf8_ok _ Hc), IH.
Qed.

Lemma newline_indent_utf8_ok level : utf8_ok (newline_indent level) = true.
Proof.
  unfold newline_indent. cbn [utf8_ok forallb]. change (is_scalar newline) with true.
  cbn [andb]. induction (2 * level)%nat as [| n IH]; [done |]. cbn [replicate forallb].
  by rewrite IH.
Qed.

Lemma join_utf8_ok sep xs :
  utf8_ok sep = true → Forall (λ x, utf8_ok x = true) xs → utf8_ok (join sep xs) = true.
Proof.
  intros Hsep. induction 1 as [| x xs Hx Hxs IH]; [done |].
  destruct xs as [| y xs]; [done |].
  change (join sep (x :: y :: xs)) with (x ++ sep ++ join sep (y :: xs)).
  by rewrite !utf8_ok_app, Hx, Hsep, IH.
Qed.

Lemma strings_ok_list l : strings_ok (JList l) ↔ Forall strings_ok l.
Proof.
  change (strings_ok (JList l)) with (foldr (λ v P, strings_ok v ∧ P) True l).
  induction l as [| v l IH]; simpl; [by split |]. rewrite Forall_cons. tauto.
Qed.

Lemma strings_ok_dict d :
  strings_ok (JDict d) ↔ Forall (λ kv, utf8_ok kv.1 = true ∧ strings_ok kv.2) d.
Proof.
  change (strings_ok (JDict d)) with
    (foldr (λ kv P, (utf8_ok kv.1 = true ∧ strings_ok kv.2) ∧ P) True d).
  induction d as [| kv d IH]; simpl; [by split |]. rewrite Forall_cons. tauto.
Qed.

(** The text of a well-formed document whose strings have no surrogate
    is text UTF-8 encodes. *)
Lemma dumps_utf8_ok o :
  wf o → strings_ok o → ∀ level, utf8_ok (dumps_at level o) = true.
Proof.
  induction o as [| b | z | lit | s | l IH | d IH] using json_ind';
    intros Hwf Hs level.
  - reflexivity.
  - by destruct b.
  - apply int_repr_utf8_ok.
  - by apply float_token_utf8_ok.
  - by apply encode_basestring_utf8_ok.
  - destruct l as [| v l]; [reflexivity |].
    change (dumps_at level (JList (v :: l))) with
      (ch "[" :: newline_indent (S level)
        ++ join (ch "," :: newline_indent (S level)) (map (dumps_at (S level)) (v :: l))
        ++ newline_indent level ++ [ch "]"]).
    change (ch "[" :: ?x) with ([ch "["] ++ x).
    rewrite !utf8_ok_app, !newline_indent_utf8_ok, join_utf8_ok; [reflexivity | |].
    + change (ch "," :: ?x) with ([ch ","] ++ x).
      by rewrite utf8_ok_app, newline_indent_utf8_ok.
    + apply wf_list in Hwf. apply strings_ok_list in Hs. apply Forall_map.
      apply Forall_forall. intros x Hx. rewrite Forall_forall in IH, Hwf, Hs.
      by apply IH; [| apply Hwf | apply Hs].
  - destruct d as [| kv d]; [reflexivity |].
    change (dumps_at level (JDict (kv :: d))) with
      (ch "{" :: newline_indent (S level)
        ++ join (ch "," :: newline_indent (S level))
             (map (λ kv, encode_basestring kv.1 ++ py ": " ++ dumps_at (S level) kv.2)
                (kv :: d))
        ++ newline_indent level ++ [ch "}"]).
    change (ch "{" :: ?x) with ([ch "{"] ++ x).
    rewrite !utf8_ok_app, !newline_indent_utf8_ok, join_utf8_ok; [reflexivity | |].
    + change (ch "," :: ?x) with ([ch ","] ++ x).
      by rewrite utf8_ok_app, newline_indent_utf8_ok.
    + apply wf_dict in Hwf as [_ Hwf]. apply strings_ok_dict in Hs. apply Forall_map.
      apply Forall_forall. intros x Hx. rewrite Forall_forall in IH, Hwf, Hs.
      cbv beta. destruct (Hs x Hx) as [Hk Hv].
      rewrite !utf8_ok_app, (encode_basestring_utf8_ok _ Hk).
      rewrite IH by (done || by apply Hwf). reflexivity.
Qed.

(** ** The round trip through the file *)

Lemma dict_get_elem k d v : dict_get k d = Some v → (k, v) ∈ d.
Proof.
  induction d as [| [k' v'] d IH]; simpl; [done |].
  destruct (str_eqb k' k) eqn:E.
  - apply str_eqb_eq in E as ->. intros [= ->]. by left.
  - intros H. right. auto.
Qed.

Lemma platform_resources_utf8_ok platform resources :
  table_get platform platform_resources = Some resources →
  Forall (λ p, utf8_ok p = true) resources.
Proof.
  intros Hget. assert (platform ∈ choices) as Hin by (apply table_get_choices; eauto).
  revert Hin Hget. unfold choices. rewrite !elem_of_cons, elem_of_nil.
  intros [-> | [-> | [-> | [-> | []]]]] Hget; vm_compute in Hget;
    injection Hget as <-; repeat constructor.
Qed.

(** The bundle the update starts from: the one of the document, or an
    empty one. *)
Lemma set_bundle_resources_Return resources d :
  match dict_get (py "bundle") d with Some b => is_dict b = true | None => True end →
  ∃ b0,
    b0 = match dict_get (py "bundle") d with Some (JDict b) => b | _ => [] end ∧
    set_bundle_resources resources (JDict d) =
      Return (JDict (dict_set (py "bundle")
        (JDict (dict_set (py "resources") (JList (map JStr resources)) b0)) d)).
Proof.
  intros Hb. eexists. split; [reflexivity |]. rewrite set_bundle_resources_dict.
  destruct (dict_get (py "bundle") d) as [[] |]; done.
Qed.

Lemma updated_wf resources d b0 :
  wf (JDict d) →
  b0 = match dict_get (py "bundle") d with Some (JDict b) => b | _ => [] end →
  wf (JDict (dict_set (py "bundle")
        (JDict (dict_set (py "resources") (JList (map JStr resources)) b0)) d)).
Proof.
  intros [Hnd Hd]%wf_dict ->. apply wf_dict. split; [by apply dict_set_NoDup |].
  apply (dict_set_Forall (λ kv, wf kv.2)); [| done]. cbn [snd].
  assert (wf (JDict match dict_get (py "bundle") d with
                    | Some (JDict b) => b | _ => [] end)) as [Hnb Hb]%wf_dict.
  { destruct (dict_get (py "bundle") d) as [b |] eqn:E;
      [| apply wf_dict; split; constructor].
    apply dict_get_elem in E. rewrite Forall_forall in Hd. specialize (Hd _ E).
    destruct b; try (apply wf_dict; split; constructor). exact Hd. }
  apply wf_dict. split; [by apply dict_set_NoDup |].
  apply (dict_set_Forall (λ kv, wf kv.2)); [| done]. cbn [snd].
  apply wf_list. apply Forall_map. by apply Forall_forall.
Qed.

Lemma updated_strings_ok resources d b0 :
  strings_ok (JDict d) →
  Forall (λ p, utf8_ok p = true) resources →
  b0 = match dict_get (py "bundle") d with Some (JDict b) => b | _ => [] end →
  strings_ok (JDict (dict_set (py "bundle")
        (JDict (dict_set (py "resources") (JList (map JStr resources)) b0)) d)).
Proof.
  intros Hd%strings_ok_dict Hres ->. apply strings_ok_dict.
  apply (dict_set_Forall (λ kv, utf8_ok kv.1 = true ∧ strings_ok kv.2)); [| done].
  split; [reflexivity |]. cbn [snd].
  assert (strings_ok (JDict match dict_get (py "bundle") d with
                            | Some (JDict b) => b | _ => [] end)) as Hb%strings_ok_dict.
  { destruct (dict_get (py "bundle") d) as [b |] eqn:E;
      [| apply strings_ok_dict; constructor].
    apply dict_get_elem in E. rewrite Forall_forall in Hd. destruct (Hd _ E) as [_ Hb].
    destruct b; try (apply strings_ok_dict; constructor). exact Hb. }
  apply strings_ok_dict.
  apply (dict_set_Forall (λ kv, utf8_ok kv.1 = true ∧ strings_ok kv.2)); [| done].
  split; [reflexivity |]. cbn [snd]. apply strings_ok_list. apply Forall_map.
  eapply Forall_impl; [exact Hres |]. done.
Qed.

(** C1, as the specification states it, fails on two documents that are
    JSON objects.  With [{"bundle": 5}] the update raises [TypeError] and
    the file, unchanged, still has no [bundle.resources].  With
    [{"a": "\ud800"}] the document loads, [json.dump] raises
    [UnicodeEncodeError] at the string, and the file is left with the text
    written before it, which is no JSON. *)
Lemma round_trip_fails :
  (∃ w',
     update_tauri_config (py "linux-x86_64") (py "tauri.conf.json")
       (World {[ py "tauri.conf.json" :=
                   RegularFile ([ch "{"; quote] ++ py "bundle" ++ [quote] ++ py ": 5}") ]}
          [] [] [])
       = (Raise TypeError, w') ∧
     loads ([ch "{"; quote] ++ py "bundle" ++ [quote] ++ py ": 5}")
       = Some (JDict [(py "bundle", JInt 5)]) ∧
     files w' !! py "tauri.conf.json"
       = Some (RegularFile ([ch "{"; quote] ++ py "bundle" ++ [quote] ++ py ": 5}"))) ∧
  (∃ w',
     update_tauri_config (py "linux-x86_64") (py "tauri.conf.json")
       (World {[ py "tauri.conf.json" :=
                   RegularFile ([ch "{"; quote] ++ py "a" ++ [quote] ++ py ": "
                                  ++ [quote] ++ py "\ud800" ++ [quote] ++ py "}") ]}
          [] [] [])
       = (Raise UnicodeEncodeError, w') ∧
     loads ([ch "{"; quote] ++ py "a" ++ [quote] ++ py ": "
              ++ [quote] ++ py "\ud800" ++ [quote] ++ py "}")
       = Some (JDict [(py "a", JStr [0xD800])]) ∧
     files w' !! py "tauri.conf.json"
       = Some (RegularFile ([ch "{"; newline; space; space; quote] ++ py "a"
                              ++ [quote] ++ py ": ")) ∧
     loads ([ch "{"; newline; space; space; quote] ++ py "a" ++ [quote] ++ py ": ") = None).
Proof.
  split.
  - exists (update_tauri_config (py "linux-x86_64") (py "tauri.conf.json")
       (World {[ py "tauri.conf.json" :=
                   RegularFile ([ch "{"; quote] ++ py "bundle" ++ [quote] ++ py ": 5}") ]}
          [] [] [])).2.
    repeat split; vm_compute; reflexivity.
  - exists (update_tauri_config (py "linux-x86_64") (py "tauri.conf.json")
       (World {[ py "tauri.conf.json" :=
                   RegularFile ([ch "{"; quote] ++ py "a" ++ [quote] ++ py ": "
                                  ++ [quote] ++ py "\ud800" ++ [quote] ++ py "}") ]}
          [] [] [])).2.
    repeat split; vm_compute; reflexivity.
Qed.

(** C1, amended. Take a supported platform and a file whose text loads as
    a JSON object, in which [bundle] is absent or an object and no string
    has a surrogate code point.  Then the run returns, and loading the file
    again gives an object [d'] such that [d'["bundle"]["resources"]] is the
    list of the two paths of the platform, every other top-level key has
    the value it had, every other key of [bundle] has the value it had,
    and the top-level keys are in the order they were, with [bundle] added
    at the end when it was absent. *)
Theorem config_round_trip platform config_path w text d :
  platform ∈ choices →
  files w !! config_path = Some (RegularFile text) →
  utf8_ok text = true →
  loads text = Some (JDict d) →
  match dict_get (py "bundle") d with Some b => is_dict b = true | None => True end →
  strings_ok (JDict d) →
  ∃ resources w' d' bundle',
    table_get platform platform_resources = Some resources ∧
    update_tauri_config platform config_path w = (Return (), w') ∧
    json_load config_path w' = (Return (JDict d'), log (EvOpenRead config_path) w') ∧
    dict_get (py "bundle") d' = Some (JDict bundle') ∧
    dict_get (py "resources") bundle' = Some (JList (map JStr resources)) ∧
    (∀ k, k ≠ py "bundle" → dict_get k d' = dict_get k d) ∧
    (∀ k, k ≠ py "resources" →
       dict_get k bundle' =
         match dict_get (py "bundle") d with
         | Some (JDict b) => dict_get k b
         | _ => None
         end) ∧
    map fst d' =
      map fst d ++ match dict_get (py "bundle") d with
                   | Some _ => []
                   | None => [py "bundle"]
                   end.
Proof.
  intros Hin Hf Hu Hl Hb Hs. apply table_get_choices in Hin as [resources Hget].
  pose proof (loads_wf _ _ Hl) as Hwf.
  destruct (set_bundle_resources_Return resources d Hb) as (b0 & Hb0 & Hset).
  pose proof (updated_wf resources d b0 Hwf Hb0) as Hwf'.
  pose proof (updated_strings_ok resources d b0 Hs
                (platform_resources_utf8_ok _ _ Hget) Hb0) as Hs'.
  set (bundle' := dict_set (py "resources") (JList (map JStr resources)) b0) in *.
  set (d' := dict_set (py "bundle") (JDict bundle') d) in *.
  pose proof (dumps_utf8_ok _ Hwf' Hs' 0) as Hd.
  pose proof (update_ok _ _ _ _ _ _ _ Hget Hf Hu Hl Hset Hd) as Hrun.
  eexists resources, _, d', bundle'. split; [done |]. split; [exact Hrun |].
  split; [| split; [| split; [| split; [| split]]]].
  - erewrite json_load_eval.
    + by rewrite (loads_dumps _ Hwf').
    + cbn [files]. apply lookup_insert_eq.
    + rewrite utf8_ok_app. change (utf8_ok (dumps (JDict d')) = true) in Hd.
      by rewrite Hd.
  - apply dict_get_set_eq.
  - apply dict_get_set_eq.
  - intros k Hk. by apply dict_get_set_ne.
  - intros k Hk. unfold bundle'. rewrite dict_get_set_ne by done. rewrite Hb0.
    by destruct (dict_get (py "bundle") d) as [[] |].
  - unfold d'. destruct (dict_get (py "bundle") d) eqn:E.
    + rewrite dict_set_keys_present by eauto. by rewrite app_nil_r.
    + by rewrite dict_set_keys_absent.
Qed.

Lemma config_round_trip_witness :
  ∃ resources w' d' bundle',
    table_get (py "linux-x86_64") platform_resources = Some resources ∧
    update_tauri_config (py "linux-x86_64") (py "tauri.conf.json")
      (World {[ py "tauri.conf.json" :=
                  RegularFile ([ch "{"; quote] ++ py "otherKey" ++ [quote] ++ py ": 1}") ]}
         [] [] [])
      = (Return (), w') ∧
    json_load (py "tauri.conf.json") w'
      = (Return (JDict d'), log (EvOpenRead (py "tauri.conf.json")) w') ∧
    dict_get (py "bundle") d' = Some (JDict bundle') ∧
    dict_get (py "resources") bundle' = Some (JList (map JStr resources)) ∧
    (∀ k, k ≠ py "bundle" → dict_get k d' = dict_get k [(py "otherKey", JInt 1)]) ∧
    (∀ k, k ≠ py "resources" →
       dict_get k bundle' =
         match dict_get (py "bundle") [(py "otherKey", JInt 1)] with
         | Some (JDict b) => dict_get k b
         | _ => None
         end) ∧
    map fst d' =
      map fst [(py "otherKey", JInt 1)]
        ++ match dict_get (py "bundle") [(py "otherKey", JInt 1)] with
           | Some _ => []
           | None => [py "bundle"]
           end.
Proof.
  apply (config_round_trip (py "linux-x86_64") (py "tauri.conf.json")
           (World {[ py "tauri.conf.json" :=
                       RegularFile ([ch "{"; quote] ++ py "otherKey" ++ [quote] ++ py ": 1}") ]}
              [] [] [])
           ([ch "{"; quote] ++ py "otherKey" ++ [quote] ++ py ": 1}")
           [(py "otherKey", JInt 1)]).
  - exact linux_supported.
  - vm_compute. reflexivity.
  - vm_compute. reflexivity.
  - vm_compute. reflexivity.
  - vm_compute. exact I.
  - vm_compute. auto.
Defined.

(** ** The layout of the text written *)

Lemma indent_ok_spaces n m c rest :
  c ≠ space →
  indent_ok n (replicate m space ++ c :: rest) = negb (c =? newline) && Nat.even (n + m).
Proof.
  intros Hc. revert n. induction m as [| m IH]; intros n.
  - cbn [replicate app indent_ok]. apply N.eqb_neq in Hc. rewrite Hc.
    by rewrite Nat.add_0_r.
  - cbn [replicate app indent_ok]. rewrite N.eqb_refl, IH.
    by rewrite Nat.add_succ_r.
Qed.

Lemma well_indented_spaces m rest :
  well_indented (replicate m space ++ rest) = well_indented rest.
Proof. induction m as [| m IH]; [done |]. cbn [replicate app well_indented]. exact IH. Qed.

Lemma well_indented_newline_indent level c rest :
  c ≠ space → c ≠ newline →
  well_indented (newline_indent level ++ c :: rest) = well_indented (c :: rest).
Proof.
  intros Hs Hn. unfold newline_indent. rewrite <- app_comm_cons.
  cbn [well_indented]. rewrite N.eqb_refl, (indent_ok_spaces _ _ _ _ Hs).
  apply N.eqb_neq in Hn. rewrite Hn, well_indented_spaces. cbn [negb andb Nat.add].
  replace (Nat.even (2 * level)) with true; [cbn [well_indented andb]; by rewrite Hn |].
  symmetry. apply Nat.even_spec. by exists level.
Qed.

Lemma well_indented_token t rest :
  newline ∉ t → well_indented (t ++ rest) = well_indented rest.
Proof.
  induction t as [| c t IH]; [done |]. intros [Hc Ht]%not_elem_of_cons.
  cbn [app well_indented]. assert ((c =? newline) = false) as -> by (apply N.eqb_neq; congruence).
  by apply IH.
Qed.

Lemma graphic_no_newline t : forallb is_graphic t = true → newline ∉ t.
Proof.
  induction t as [| c t IH]; [intros _; apply not_elem_of_nil |]. cbn [forallb].
  intros [Hc Ht]%andb_prop. apply not_elem_of_cons. split; [| by apply IH].
  intros <-. discriminate Hc.
Qed.

Lemma escape_char_no_newline c : newline ∉ escape_char c.
Proof.
  unfold escape_char.
  repeat match goal with
    | |- context [if ?c =? ?k then _ else _] =>
        destruct (N.eqb_spec c k);
          [rewrite !not_elem_of_cons; repeat split; (discriminate || apply not_elem_of_nil) |]
    end.
  destruct (c <? 32) eqn:E.
  - apply graphic_no_newline. cbn [forallb].
    assert (∀ h, h < 16 → is_graphic (hex_digit h) = true) as Hh.
    { intros h Hlt. unfold hex_digit, is_graphic, space.
      destruct (h <? 10); apply andb_true_iff; split; apply N.ltb_lt; lia. }
    apply N.ltb_lt in E.
    rewrite !Hh; [reflexivity | apply N.mod_lt; lia | apply N.Div0.div_lt_upper_bound; lia].
  - rewrite not_elem_of_cons. split; [unfold newline; congruence | apply not_elem_of_nil].
Qed.

Lemma encode_basestring_no_newline s : newline ∉ encode_basestring s.
Proof.
  unfold encode_basestring. rewrite not_elem_of_cons. split; [discriminate |].
  rewrite not_elem_of_app. split.
  - induction s as [| c s IH]; [apply not_elem_of_nil |]. cbn [flat_map].
    rewrite not_elem_of_app. split; [apply escape_char_no_newline | exact IH].
  - rewrite not_elem_of_cons. split; [discriminate | apply not_elem_of_nil].
Qed.

(** The items of a list or dictionary, each on its own line. *)
Lemma well_indented_items level (xs : list (list N)) rest :
  Forall (λ x, (∃ c t, x = c :: t ∧ c ≠ space ∧ c ≠ newline) ∧
               ∀ rest, well_indented (x ++ rest) = well_indented rest) xs →
  well_indented (flat_map (λ x, (ch "," :: newline_indent level) ++ x) xs ++ rest)
    = well_indented rest.
Proof.
  induction 1 as [| x xs [(c & t & -> & Hs & Hn) Hx] _ IH]; [done |].
  cbn [flat_map]. rewrite <- !(assoc_L (++)). rewrite <- app_comm_cons.
  cbn [well_indented]. change (ch "," =? newline) with false. cbn [andb].
  repeat (rewrite <- (assoc_L (++)) || rewrite <- app_comm_cons).
  rewrite (well_indented_newline_indent _ _ _ Hs Hn).
  rewrite app_comm_cons, Hx. exact IH.
Qed.

Lemma well_indented_block level (opening closing : N) (xs : list (list N)) x rest :
  opening ≠ newline → closing ≠ newline → closing ≠ space →
  Forall (λ x, (∃ c t, x = c :: t ∧ c ≠ space ∧ c ≠ newline) ∧
               ∀ rest, well_indented (x ++ rest) = well_indented rest) (x :: xs) →
  well_indented
    ((opening :: newline_indent (S level)
        ++ join (ch "," :: newline_indent (S level)) (x :: xs)
        ++ newline_indent level ++ [closing]) ++ rest)
    = well_indented rest.
Proof.
  intros Ho Hc Hc' Hxs. apply Forall_cons in Hxs as [[(c & t & -> & Hs & Hn) Hx] Hxs].
  rewrite join_cons. rewrite <- !app_comm_cons. cbn [well_indented].
  apply N.eqb_neq in Ho. rewrite Ho. cbn [andb].
  repeat (rewrite <- (assoc_L (++)) || rewrite <- app_comm_cons).
  rewrite (well_indented_newline_indent _ _ _ Hs Hn).
  rewrite app_comm_cons, Hx, (well_indented_items _ _ _ Hxs).
  cbn [app]. rewrite (well_indented_newline_indent _ _ _ Hc' Hc).
  cbn [well_indented]. apply N.eqb_neq in Hc. by rewrite Hc.
Qed.

Lemma value_start_not_space c : value_start c = true → c ≠ space ∧ c ≠ newline.
Proof. intros H%value_start_cases. unfold space, newline. lia. Qed.

Ltac no_newline := apply (bool_decide_unpack _); vm_compute; exact I.

(** The text of a document leaves the layout of what follows it as it is:
    a line break of the text is followed by an even number of spaces and
    then by a value, a key or a closing bracket. *)
Lemma well_indented_dumps o :
  wf o → ∀ level rest, well_indented (dumps_at level o ++ rest) = well_indented rest.
Proof.
  induction o as [| b | z | lit | s | l IH | d IH] using json_ind';
    intros Hwf level rest.
  - apply well_indented_token. no_newline.
  - destruct b; apply well_indented_token; no_newline.
  - apply well_indented_token, graphic_no_newline, int_repr_graphic.
  - by apply well_indented_token, graphic_no_newline, float_token_graphic.
  - apply well_indented_token, encode_basestring_no_newline.
  - destruct l as [| v l]; [apply well_indented_token; no_newline |].
    change (dumps_at level (JList (v :: l))) with
      (ch "[" :: newline_indent (S level)
        ++ join (ch "," :: newline_indent (S level)) (map (dumps_at (S level)) (v :: l))
        ++ newline_indent level ++ [ch "]"]).
    cbn [map]. apply well_indented_block; [discriminate .. |].
    change (dumps_at (S level) v :: map (dumps_at (S level)) l)
      with (map (dumps_at (S level)) (v :: l)).
    apply wf_list in Hwf. apply Forall_map, Forall_forall. intros x Hx.
    rewrite Forall_forall in IH, Hwf. split.
    + destruct (dumps_head (S level) x (Hwf x Hx)) as (c & t & E & Hc).
      exists c, t. split; [done |]. by apply value_start_not_space.
    + intros rest'. by apply IH; [| apply Hwf].
  - destruct d as [| kv d]; [apply well_indented_token; no_newline |].
    change (dumps_at level (JDict (kv :: d))) with
      (ch "{" :: newline_indent (S level)
        ++ join (ch "," :: newline_indent (S level))
             (map (λ kv, encode_basestring kv.1 ++ py ": " ++ dumps_at (S level) kv.2)
                (kv :: d))
        ++ newline_indent level ++ [ch "}"]).
    cbn [map]. apply well_indented_block; [discriminate .. |].
    change ((encode_basestring kv.1 ++ py ": " ++ dumps_at (S level) kv.2)
              :: map (λ kv, encode_basestring kv.1 ++ py ": " ++ dumps_at (S level) kv.2) d)
      with (map (λ kv, encode_basestring kv.1 ++ py ": " ++ dumps_at (S level) kv.2)
              (kv :: d)).
    apply wf_dict in Hwf as [_ Hwf]. apply Forall_map, Forall_forall. intros x Hx.
    rewrite Forall_forall in IH, Hwf. cbv beta. split.
    + eexists _, _. split; [reflexivity |]. split; discriminate.
    + intros rest'. rewrite <- !(assoc_L (++)).
      rewrite (well_indented_token _ _ (encode_basestring_no_newline _)).
      rewrite well_indented_token by no_newline.
      by apply IH; [| apply Hwf].
Qed.

(** C9. A write of a document [json.load] can return, when it returns,
    leaves in the file the text [dumps o] and a line break: a text that
    depends on the document alone, so that a second write of the same
    document, to any path and in any state of the file system, leaves the
    same text; in which every line break is followed by an even number of
    spaces; and which [json.loads] reads back as [o], the keys of every
    dictionary in the order they have in [o]. *)
Theorem write_config_deterministic config_path o w w' :
  wf o →
  write_config config_path o w = (Return (), w') →
  files w' !! config_path = Some (RegularFile (dumps o ++ [newline])) ∧
  (∀ config_path2 w2 w2',
     write_config config_path2 o w2 = (Return (), w2') →
     files w2' !! config_path2 = files w' !! config_path) ∧
  last (dumps o ++ [newline]) = Some newline ∧
  well_indented (dumps o ++ [newline]) = true ∧
  loads (dumps o ++ [newline]) = Some o.
Proof.
  intros Hwf Hrun.
  assert (∀ p v v', write_config p o v = (Return (), v') →
            files v' !! p = Some (RegularFile (dumps o ++ [newline]))) as Hfile.
  { intros p v v' H. destruct (write_config_Return _ _ _ _ H) as [Hd Hu].
    rewrite (write_config_ok _ _ _ Hd Hu) in H. simplify_eq. cbn [files].
    apply lookup_insert_eq. }
  split; [by eapply Hfile |]. split; [| split; [| split]].
  - intros p2 w2 w2' H2. by rewrite (Hfile _ _ _ H2), (Hfile _ _ _ Hrun).
  - apply last_snoc.
  - unfold dumps. by rewrite well_indented_dumps.
  - by apply loads_dumps.
Qed.

Lemma write_config_deterministic_witness :
  ∃ w',
    write_config (py "tauri.conf.json")
      (JDict [(py "otherKey", JInt 1); (py "bundle", JDict [(py "active", JBool true)])])
      (World ∅ [] [] []) = (Return (), w') ∧
    files w' !! py "tauri.conf.json"
      = Some (RegularFile
                (dumps (JDict [(py "otherKey", JInt 1);
                               (py "bundle", JDict [(py "active", JBool true)])])
                   ++ [newline])) ∧
    well_indented
      (dumps (JDict [(py "otherKey", JInt 1);
                     (py "bundle", JDict [(py "active", JBool true)])]) ++ [newline]) = true ∧
    loads
      (dumps (JDict [(py "otherKey", JInt 1);
                     (py "bundle", JDict [(py "active", JBool true)])]) ++ [newline])
      = Some (JDict [(py "otherKey", JInt 1);
                     (py "bundle", JDict [(py "active", JBool true)])]).
Proof.
  exists (write_config (py "tauri.conf.json")
            (JDict [(py "otherKey", JInt 1);
                    (py "bundle", JDict [(py "active", JBool true)])])
            (World ∅ [] [] [])).2.
  split; [vm_compute; reflexivity |].
  destruct (write_config_deterministic (py "tauri.conf.json")
              (JDict [(py "otherKey", JInt 1);
                      (py "bundle", JDict [(py "active", JBool true)])])
              (World ∅ [] [] [])
              (write_config (py "tauri.conf.json")
                 (JDict [(py "otherKey", JInt 1);
                         (py "bundle", JDict [(py "active", JBool true)])])
                 (World ∅ [] [] [])).2) as (Hf & _ & _ & Hi & Hl).
  - vm_compute. repeat split; apply (bool_decide_unpack _); vm_compute; exact I.
  - vm_compute. reflexivity.
  - exact (conj Hf (conj Hi Hl)).
Defined.

(** * Further properties of the run *)

(** ** A write that fails *)

(** [json.dump] writes chunk after chunk; at the first chunk the codec
    refuses, the chunks before it are in the file. *)
Lemma write_chunks_fail p chunks : ∀ w t,
  files w !! p = Some (RegularFile t) →
  forallb utf8_ok chunks = false →
  ∃ pre bad post,
    chunks = pre ++ bad :: post ∧ forallb utf8_ok pre = true ∧ utf8_ok bad = false ∧
    write_chunks p chunks w =
      (Raise UnicodeEncodeError,
       World (<[p := RegularFile (t ++ concat pre)]> (files w))
         (stdout w) (stderr w) (trace w)).
Proof.
  induction chunks as [| c chunks IH]; intros w t Hf Hc; [done |].
  cbn [forallb] in Hc. destruct (utf8_ok c) eqn:Ec.
  - cbn [andb] in Hc.
    set (w1 := World (<[p := RegularFile (t ++ c)]> (files w)) (stdout w) (stderr w)
                 (trace w)).
    assert (file_write p c w = (Return (), w1)) as Hw.
    { unfold file_write. by rewrite Ec, Hf. }
    destruct (IH w1 (t ++ c) (lookup_insert_eq _ _ _) Hc)
      as (pre & bad & post & -> & Hpre & Hbad & Hrun).
    exists (c :: pre), bad, post. split; [done |]. split; [by cbn [forallb]; rewrite Ec |].
    split; [done |]. cbn [write_chunks]. rewrite (bind_Return _ _ _ _ _ Hw), Hrun.
    cbn [files stdout stderr trace w1 concat].
    by rewrite insert_insert_eq, <- (assoc_L (++)).
  - exists [], c, chunks. split; [done |]. split; [done |]. split; [done |].
    cbn [write_chunks]. erewrite bind_Raise; last by (unfold file_write; rewrite Ec).
    cbn [concat]. rewrite app_nil_r, (insert_id _ _ _ Hf). by destruct w.
Qed.

Lemma utf8_ok_nonempty s : utf8_ok s = false → s ≠ [].
Proof. by intros H ->. Qed.

(** A document with a string the codec refuses: the file is emptied by
    [open], filled up to the chunk that fails, and left so. *)
Lemma write_config_fail p o w :
  files w !! p ≠ Some Directory →
  utf8_ok (dumps o) = false →
  ∃ written rest,
    dumps o = written ++ rest ∧ rest ≠ [] ∧ utf8_ok written = true ∧
    write_config p o w =
      (Raise UnicodeEncodeError,
       World (<[p := RegularFile written]> (files w))
         (stdout w) (stderr w) (EvOpenWrite p :: trace w)).
Proof.
  intros Hd Hu. unfold write_config.
  set (w1 := World (<[p := RegularFile []]> (files w)) (stdout w) (stderr w)
               (EvOpenWrite p :: trace w)).
  assert (open_write p w = (Return (), w1)) as Ho.
  { unfold open_write. by destruct (files w !! p) as [[] |]. }
  rewrite (bind_Return _ _ _ _ _ Ho).
  assert (forallb utf8_ok (iterencode 0 o) = false) as Hc.
  { by rewrite <- utf8_ok_concat, iterencode_concat. }
  destruct (write_chunks_fail p _ w1 [] (lookup_insert_eq _ _ _) Hc)
    as (pre & bad & post & E & Hpre & Hbad & Hrun).
  exists (concat pre), (bad ++ concat post). split; [| split; [| split]].
  - unfold dumps. rewrite <- iterencode_concat, E, concat_app. done.
  - intros [-> _]%app_eq_nil. done.
  - by rewrite utf8_ok_concat.
  - erewrite bind_Raise; last exact Hrun.
    cbn [files stdout stderr trace w1 app]. by rewrite insert_insert_eq.
Qed.

(** ** Every way a run can end *)

(** The update in memory returns or raises [TypeError]. *)
Lemma set_bundle_resources_result resources config :
  (∃ config', set_bundle_resources resources config = Return config') ∨
  set_bundle_resources resources config = Raise TypeError.
Proof.
  destruct (is_dict config) eqn:Hd.
  - destruct config; try done. rewrite set_bundle_resources_dict.
    destruct (dict_get (py "bundle") d) as [[] |]; eauto.
  - right. by apply set_bundle_resources_not_dict.
Qed.

Lemma write_config_not_directory p text w :
  files w !! p = Some (RegularFile text) →
  files (after_read p w) !! p ≠ Some Directory.
Proof. cbn [after_read log files]. by intros ->. Qed.

(** The five ways: the platform is unknown; the file is missing; the
    read, the parse or the update in memory raises; the write raises; the
    run returns. *)
Lemma update_outcome platform config_path w r w' :
  update_tauri_config platform config_path w = (r, w') →
  ((platform ∉ choices) ∧ r = SysExit 1 ∧
     files w' = files w ∧ stdout w' = stdout w ∧ trace w' = trace w) ∨
  (platform ∈ choices ∧ files w !! config_path = None ∧ r = SysExit 1 ∧
     files w' = files w ∧ stdout w' = stdout w ∧
     trace w' = EvExists config_path :: trace w) ∨
  (platform ∈ choices ∧ is_Some (files w !! config_path) ∧
     (∃ e, r = Raise e ∧
           e ∈ [IsADirectoryError; UnicodeDecodeError; JSONDecodeError; TypeError]) ∧
     w' = after_read config_path w) ∨
  (platform ∈ choices ∧ r = Raise UnicodeEncodeError ∧
     (∃ text written,
        files w !! config_path = Some (RegularFile text) ∧
        files w' = <[config_path := RegularFile written]> (files w)) ∧
     stdout w' = stdout w ∧ stderr w' = stderr w ∧
     trace w' = EvOpenWrite config_path :: EvOpenRead config_path
                  :: EvExists config_path :: trace w) ∨
  (platform ∈ choices ∧ r = Return () ∧
     (∃ text written,
        files w !! config_path = Some (RegularFile text) ∧
        files w' = <[config_path := RegularFile written]> (files w)) ∧
     stderr w' = stderr w ∧
     trace w' = EvOpenWrite config_path :: EvOpenRead config_path
                  :: EvExists config_path :: trace w).
Proof.
  intros H.
  destruct (table_get platform platform_resources) as [resources |] eqn:Hget.
  2: { left. rewrite update_unsupported in H by done. simplify_eq.
       split; [| repeat split]. rewrite table_get_choices, Hget. by intros [? ?]. }
  assert (platform ∈ choices) as Hin by (rewrite table_get_choices, Hget; eauto).
  right.
  destruct (files w !! config_path) as [[text |] |] eqn:Hf.
  - destruct (utf8_ok text) eqn:Hu.
    + pose proof H as H0. rewrite (update_loaded _ _ _ _ _ Hget Hf Hu) in H.
      destruct (loads text) as [config |] eqn:Hl.
      * destruct (set_bundle_resources_result resources config) as [[config' Hs] | Hs];
          rewrite Hs in H.
        -- right. right.
           pose proof (write_config_not_directory _ _ _ Hf) as Hd.
           destruct (utf8_ok (dumps config')) eqn:Hc.
           ++ right. clear H.
              rewrite (update_ok _ _ _ _ _ _ _ Hget Hf Hu Hl Hs Hc) in H0.
              simplify_eq. split; [done |]. split; [done |]. split; [| done].
              by exists text, (dumps config' ++ [newline]).
           ++ left. clear H0. destruct (write_config_fail _ _ _ Hd Hc)
                as (written & rest & _ & _ & _ & Hw).
              rewrite (bind_Raise _ _ _ _ _ Hw) in H. simplify_eq.
              split; [done |]. split; [done |]. split; [| done].
              by exists text, written.
        -- right. left. simplify_eq. split; [done |]. split; [done |]. split; [| done].
           exists TypeError. split; [done |]. rewrite !elem_of_cons. tauto.
      * right. left. simplify_eq. split; [done |]. split; [done |]. split; [| done].
        exists JSONDecodeError. split; [done |]. rewrite !elem_of_cons. tauto.
    + right. left. rewrite (update_undecodable _ _ _ _ _ Hget Hf Hu) in H. simplify_eq.
      split; [done |]. split; [done |]. split; [| done].
      exists UnicodeDecodeError. split; [done |]. rewrite !elem_of_cons. tauto.
  - right. left. rewrite (update_directory _ _ _ _ Hget Hf) in H. simplify_eq.
    split; [done |]. split; [done |]. split; [| done].
    exists IsADirectoryError. split; [done |]. rewrite !elem_of_cons. tauto.
  - left. rewrite (update_missing _ _ _ _ Hget Hf) in H. by simplify_eq.
Qed.

(** ** Text UTF-8 encodes comes from strings without surrogates *)

Lemma escape_char_utf8_inv c : utf8_ok (escape_char c) = true → is_scalar c = true.
Proof.
  unfold escape_char.
  repeat match goal with
    | |- context [if ?c =? ?k then _ else _] =>
        destruct (N.eqb_spec c k) as [-> | _]; [intros _; reflexivity |]
    end.
  destruct (N.ltb_spec c 32) as [Hlt | _].
  - intros _. unfold is_scalar, is_surrogate. apply andb_true_iff.
    split; [apply N.leb_le; lia |].
    apply negb_true_iff, andb_false_iff. left. apply N.leb_gt. lia.
  - cbn [utf8_ok forallb]. by rewrite andb_true_r.
Qed.

Lemma encode_basestring_utf8_inv s :
  utf8_ok (encode_basestring s) = true → utf8_ok s = true.
Proof.
  unfold encode_basestring. change (quote :: ?x) with ([quote] ++ x).
  rewrite !utf8_ok_app. intros [_ [H _]%andb_prop]%andb_prop. revert H.
  induction s as [| c s IH]; [done |]. cbn [flat_map]. rewrite utf8_ok_app.
  intros [Hc Hs]%andb_prop. change (utf8_ok (c :: s)) with (is_scalar c && utf8_ok s).
  by rewrite (escape_char_utf8_inv _ Hc), (IH Hs).
Qed.

Lemma join_utf8_inv sep xs :
  utf8_ok (join sep xs) = true → Forall (λ x, utf8_ok x = true) xs.
Proof.
  destruct xs as [| x xs]; [by constructor |]. rewrite join_cons, utf8_ok_app.
  intros [Hx Hxs]%andb_prop. constructor; [done |].
  induction xs as [| y xs IH]; [by constructor |]. cbn [flat_map] in Hxs.
  rewrite !utf8_ok_app in Hxs. apply andb_prop in Hxs as [[_ Hy]%andb_prop Hxs].
  constructor; [done | by apply IH].
Qed.

Lemma dumps_utf8_ok_inv o :
  ∀ level, utf8_ok (dumps_at level o) = true → strings_ok o.
Proof.
  induction o as [| b | z | lit | s | l IH | d IH] using json_ind'; intros level H;
    try exact I.
  - by apply encode_basestring_utf8_inv.
  - apply strings_ok_list. destruct l as [| v l]; [by constructor |].
    change (dumps_at level (JList (v :: l))) with
      (ch "[" :: newline_indent (S level)
        ++ join (ch "," :: newline_indent (S level)) (map (dumps_at (S level)) (v :: l))
        ++ newline_indent level ++ [ch "]"]) in H.
    change (ch "[" :: ?x) with ([ch "["] ++ x) in H. rewrite !utf8_ok_app in H.
    apply andb_prop in H as [_ [_ [H _]%andb_prop]%andb_prop].
    apply join_utf8_inv, Forall_map in H.
    rewrite Forall_forall in IH, H. apply Forall_forall. intros x Hx.
    exact (IH x Hx (S level) (H x Hx)).
  - apply strings_ok_dict. destruct d as [| kv d]; [by constructor |].
    change (dumps_at level (JDict (kv :: d))) with
      (ch "{" :: newline_indent (S level)
        ++ join (ch "," :: newline_indent (S level))
             (map (λ kv, encode_basestring kv.1 ++ py ": " ++ dumps_at (S level) kv.2)
                (kv :: d))
        ++ newline_indent level ++ [ch "}"]) in H.
    change (ch "{" :: ?x) with ([ch "{"] ++ x) in H. rewrite !utf8_ok_app in H.
    apply andb_prop in H as [_ [_ [H _]%andb_prop]%andb_prop].
    apply join_utf8_inv, Forall_map in H.
    rewrite Forall_forall in IH, H. apply Forall_forall. intros x Hx.
    specialize (H x Hx). cbv beta in H. rewrite !utf8_ok_app in H.
    apply andb_prop in H as [Hk [_ Hv]%andb_prop].
    split; [by apply encode_basestring_utf8_inv | exact (IH x Hx (S level) Hv)].
Qed.

(** ** Two updates in a row *)

(** A second update, whatever its resources, sees nothing of the first
    but the [bundle] it may have created. *)
Lemma set_bundle_resources_twice r1 r2 config :
  rbind (set_bundle_resources r1 config) (set_bundle_resources r2)
  = set_bundle_resources r2 config.
Proof.
  destruct (is_dict config) eqn:Hd.
  - destruct config; try done. rewrite !set_bundle_resources_dict.
    destruct (dict_get (py "bundle") d) as [[] |] eqn:E; simpl; try done;
      rewrite set_bundle_resources_dict, dict_get_set_eq;
      by rewrite ?dict_set_set.
  - by rewrite !set_bundle_resources_not_dict.
Qed.

(** What a returned update says of the document it was given. *)
Lemma set_bundle_resources_Return_inv resources config config' :
  set_bundle_resources resources config = Return config' →
  ∃ d b0,
    config = JDict d ∧
    match dict_get (py "bundle") d with Some b => is_dict b = true | None => True end ∧
    b0 = match dict_get (py "bundle") d with Some (JDict b) => b | _ => [] end ∧
    config' = JDict (dict_set (py "bundle")
                (JDict (dict_set (py "resources") (JList (map JStr resources)) b0)) d).
Proof.
  intros H. destruct (is_dict config) eqn:Hd;
    [| by rewrite set_bundle_resources_not_dict in H].
  destruct config as [| | | | | | d]; try done. exists d.
  assert (match dict_get (py "bundle") d with
          | Some b => is_dict b = true
          | None => True
          end) as Hb.
  { rewrite set_bundle_resources_dict in H.
    by destruct (dict_get (py "bundle") d) as [[] |]. }
  destruct (set_bundle_resources_Return resources d Hb) as (b0 & Hb0 & E).
  exists b0. rewrite E in H. by simplify_eq.
Qed.

(** The document a run writes, when it returns, and what is known of it. *)
Lemma update_Return_document platform config_path w w' :
  update_tauri_config platform config_path w = (Return (), w') →
  ∃ resources text config config',
    table_get platform platform_resources = Some resources ∧
    files w !! config_path = Some (RegularFile text) ∧
    utf8_ok text = true ∧
    loads text = Some config ∧
    set_bundle_resources resources config = Return config' ∧
    wf config' ∧ strings_ok config' ∧
    files w' = <[config_path := RegularFile (dumps config' ++ [newline])]> (files w).
Proof.
  intros H.
  destruct (update_Return _ _ _ _ H)
    as (resources & text & config & config' & Hget & Hf & Hu & Hl & Hs & Hd).
  exists resources, text, config, config'. repeat (split; [done |]).
  destruct (set_bundle_resources_Return_inv _ _ _ Hs) as (d & b0 & -> & Hb & Hb0 & ->).
  split; [apply updated_wf; [by eapply loads_wf | done] |].
  split; [by eapply dumps_utf8_ok_inv |].
  rewrite (update_ok _ _ _ _ _ _ _ Hget Hf Hu Hl Hs Hd) in H. by simplify_eq.
Qed.

(** A second run on the file a first run wrote. *)
Lemma update_again platform1 platform2 config_path w w1 resources2 :
  update_tauri_config platform1 config_path w = (Return (), w1) →
  table_get platform2 platform_resources = Some resources2 →
  ∃ text config config2,
    files w !! config_path = Some (RegularFile text) ∧
    utf8_ok text = true ∧
    loads text = Some config ∧
    set_bundle_resources resources2 config = Return config2 ∧
    utf8_ok (dumps config2) = true ∧
    update_tauri_config platform2 config_path w1 =
      (Return (),
       World (<[config_path := RegularFile (dumps config2 ++ [newline])]> (files w))
         (((stdout w1 ++ (py "Successfully updated " ++ config_path) ++ [newline])
             ++ (py "Platform: " ++ platform2) ++ [newline])
            ++ (py "Resources: " ++ repr_list resources2) ++ [newline])
         (stderr w1)
         (EvOpenWrite config_path :: EvOpenRead config_path :: EvExists config_path
            :: trace w1)).
Proof.
  intros H Hget2.
  destruct (update_Return_document _ _ _ _ H)
    as (resources & text & config & config' & Hget & Hf & Hu & Hl & Hs & Hwf & Hso & Hfiles).
  pose proof (set_bundle_resources_twice resources resources2 config) as Ht.
  rewrite Hs in Ht. cbn [rbind] in Ht.
  destruct (set_bundle_resources_Return_inv _ _ _ Hs) as (d & b0 & -> & Hb & Hb0 & ->).
  set (bundle' := dict_set (py "resources") (JList (map JStr resources)) b0) in *.
  set (d' := dict_set (py "bundle") (JDict bundle') d) in *.
  assert (match dict_get (py "bundle") d' with
          | Some b => is_dict b = true
          | None => True
          end) as Hb'.
  { unfold d'. by rewrite dict_get_set_eq. }
  destruct (set_bundle_resources_Return resources2 d' Hb') as (b0' & Hb0' & Hs2).
  pose proof (updated_wf resources2 d' b0' Hwf Hb0') as Hwf2.
  pose proof (updated_strings_ok resources2 d' b0' Hso
                (platform_resources_utf8_ok _ _ Hget2) Hb0') as Hso2.
  pose proof (dumps_utf8_ok _ Hwf2 Hso2 0) as Hd2.
  eexists text, (JDict d), _. split; [done |]. split; [done |]. split; [done |].
  split; [by rewrite <- Ht, Hs2 |]. split; [exact Hd2 |].
  assert (files w1 !! config_path
          = Some (RegularFile (dumps (JDict d') ++ [newline]))) as Hf1.
  { rewrite Hfiles. apply lookup_insert_eq. }
  assert (utf8_ok (dumps (JDict d') ++ [newline]) = true) as Hu1.
  { rewrite utf8_ok_app. unfold dumps. by rewrite (dumps_utf8_ok _ Hwf Hso 0). }
  rewrite (update_ok _ _ _ _ _ _ _ Hget2 Hf1 Hu1 (loads_dumps _ Hwf) Hs2 Hd2).
  by rewrite Hfiles, insert_insert_eq.
Qed.

(** ** Reads that fail *)

(** X1. When [config_path] is a directory, [Path.exists] is true and
    [open(config_file, 'r')] raises [IsADirectoryError]: the run ends with
    exit status 1, nothing is printed and no file is changed. *)
Theorem directory_config_raises platform config_path w :
  platform ∈ choices →
  files w !! config_path = Some Directory →
  ∃ w',
    update_tauri_config platform config_path w = (Raise IsADirectoryError, w') ∧
    exit_status (Raise IsADirectoryError : result ()) = 1%Z ∧
    files w' = files w ∧ stdout w' = stdout w ∧ stderr w' = stderr w ∧
    trace w' = EvOpenRead config_path :: EvExists config_path :: trace w.
Proof.
  intros [resources Hget]%table_get_choices Hf.
  eexists. split; [by apply (update_directory _ _ _ _ Hget Hf) |]. done.
Qed.

Lemma directory_config_raises_witness :
  let w := World {[ py "src-tauri" := Directory ]} [] [] [] in
  ∃ w',
    update_tauri_config (py "linux-x86_64") (py "src-tauri") w
      = (Raise IsADirectoryError, w') ∧
    exit_status (Raise IsADirectoryError : result ()) = 1%Z ∧
    files w' = files w ∧ stdout w' = stdout w ∧ stderr w' = stderr w ∧
    trace w' = EvOpenRead (py "src-tauri") :: EvExists (py "src-tauri") :: trace w.
Proof.
  intros w. apply (directory_config_raises (py "linux-x86_64") (py "src-tauri") w).
  - exact linux_supported.
  - vm_compute. reflexivity.
Defined.

(** X2. When the file at [config_path] holds bytes that are no UTF-8,
    [json.load] raises [UnicodeDecodeError] while it reads: nothing is
    printed and no file is changed. *)
Theorem undecodable_config_raises platform config_path w text :
  platform ∈ choices →
  files w !! config_path = Some (RegularFile text) →
  utf8_ok text = false →
  ∃ w',
    update_tauri_config platform config_path w = (Raise UnicodeDecodeError, w') ∧
    files w' = files w ∧ stdout w' = stdout w ∧ stderr w' = stderr w ∧
    trace w' = EvOpenRead config_path :: EvExists config_path :: trace w.
Proof.
  intros [resources Hget]%table_get_choices Hf Hu.
  eexists. split; [by apply (update_undecodable _ _ _ _ _ Hget Hf Hu) |]. done.
Qed.

Lemma undecodable_config_raises_witness :
  let w := World {[ py "tauri.conf.json" := RegularFile [ch "{"; 0xDC80; ch "}"] ]}
             [] [] [] in
  ∃ w',
    update_tauri_config (py "linux-x86_64") (py "tauri.conf.json") w
      = (Raise UnicodeDecodeError, w') ∧
    files w' = files w ∧ stdout w' = stdout w ∧ stderr w' = stderr w ∧
    trace w' = EvOpenRead (py "tauri.conf.json") :: EvExists (py "tauri.conf.json")
                 :: trace w.
Proof.
  intros w.
  apply (undecodable_config_raises (py "linux-x86_64") (py "tauri.conf.json") w
           [ch "{"; 0xDC80; ch "}"]).
  - exact linux_supported.
  - vm_compute. reflexivity.
  - vm_compute. reflexivity.
Defined.

(** X3. A config file that starts with a byte order mark is refused,
    whatever follows the mark: the file is opened with [encoding='utf-8'],
    which keeps the mark in the text, and [json.load] raises
    [JSONDecodeError] on it.  The file is left as it was. *)
Theorem bom_config_raises platform config_path w text :
  platform ∈ choices →
  files w !! config_path = Some (RegularFile (BOM :: text)) →
  utf8_ok text = true →
  ∃ w',
    update_tauri_config platform config_path w = (Raise JSONDecodeError, w') ∧
    files w' = files w ∧ stdout w' = stdout w ∧ stderr w' = stderr w.
Proof.
  intros [resources Hget]%table_get_choices Hf Hu.
  assert (utf8_ok (BOM :: text) = true) as Hu'.
  { change (utf8_ok (BOM :: text)) with (is_scalar BOM && utf8_ok text). by rewrite Hu. }
  assert (loads (BOM :: text) = None) as Hl by (unfold loads; by rewrite N.eqb_refl).
  eexists. split; [by rewrite (update_loaded _ _ _ _ _ Hget Hf Hu'), Hl |]. done.
Qed.

Lemma bom_config_raises_witness :
  let w := World {[ py "tauri.conf.json" := RegularFile (BOM :: py "{}") ]} [] [] [] in
  ∃ w',
    update_tauri_config (py "linux-x86_64") (py "tauri.conf.json") w
      = (Raise JSONDecodeError, w') ∧
    files w' = files w ∧ stdout w' = stdout w ∧ stderr w' = stderr w.
Proof.
  intros w.
  apply (bom_config_raises (py "linux-x86_64") (py "tauri.conf.json") w (py "{}")).
  - exact linux_supported.
  - vm_compute. reflexivity.
  - vm_compute. reflexivity.
Defined.

(** ** A write that fails half way *)

(** X4. The write is not atomic.  When the updated document has a string
    UTF-8 cannot encode (a lone surrogate, which [json.load] accepts as an
    escape), [open(config_file, 'w')] has emptied the file before
    [json.dump] raises [UnicodeEncodeError]: the file is left holding a
    proper prefix of the text of the document, the confirmation is not
    printed, and the exit status is 1. *)
Theorem failed_write_truncates platform config_path w text config resources config' :
  table_get platform platform_resources = Some resources →
  files w !! config_path = Some (RegularFile text) →
  utf8_ok text = true →
  loads text = Some config →
  set_bundle_resources resources config = Return config' →
  ¬ strings_ok config' →
  ∃ written rest w',
    update_tauri_config platform config_path w = (Raise UnicodeEncodeError, w') ∧
    exit_status (Raise UnicodeEncodeError : result ()) = 1%Z ∧
    dumps config' = written ++ rest ∧ rest ≠ [] ∧
    files w' !! config_path = Some (RegularFile written) ∧
    stdout w' = stdout w ∧ stderr w' = stderr w.
Proof.
  intros Hget Hf Hu Hl Hs Hso.
  assert (utf8_ok (dumps config') = false) as Hd.
  { destruct (utf8_ok (dumps config')) eqn:E; [| done].
    destruct Hso. by eapply dumps_utf8_ok_inv. }
  destruct (write_config_fail config_path config' (after_read config_path w)
              (write_config_not_directory _ _ _ Hf) Hd)
    as (written & rest & E & Hrest & _ & Hw).
  exists written, rest. eexists. split.
  { rewrite (update_loaded _ _ _ _ _ Hget Hf Hu), Hl, Hs. by apply bind_Raise. }
  split; [done |]. split; [done |]. split; [done |]. split; [| done].
  cbn [files]. apply lookup_insert_eq.
Qed.

Lemma failed_write_truncates_witness :
  let text := [ch "{"; quote] ++ py "a" ++ [quote] ++ py ": "
                ++ [quote] ++ py "\ud800" ++ [quote] ++ py "}" in
  let w := World {[ py "tauri.conf.json" := RegularFile text ]} [] [] [] in
  let config' :=
    JDict [(py "a", JStr [0xD800]);
           (py "bundle",
            JDict [(py "resources",
                    JList [JStr (py "binaries/linux-x86_64/ffmpeg");
                           JStr (py "binaries/linux-x86_64/ffprobe")])])] in
  ∃ written rest w',
    update_tauri_config (py "linux-x86_64") (py "tauri.conf.json") w
      = (Raise UnicodeEncodeError, w') ∧
    exit_status (Raise UnicodeEncodeError : result ()) = 1%Z ∧
    dumps config' = written ++ rest ∧ rest ≠ [] ∧
    files w' !! py "tauri.conf.json" = Some (RegularFile written) ∧
    stdout w' = stdout w ∧ stderr w' = stderr w.
Proof.
  intros text w config'.
  apply (failed_write_truncates (py "linux-x86_64") (py "tauri.conf.json") w text
           (JDict [(py "a", JStr [0xD800])])
           [py "binaries/linux-x86_64/ffmpeg"; py "binaries/linux-x86_64/ffprobe"]
           config').
  - vm_compute. reflexivity.
  - vm_compute. reflexivity.
  - vm_compute. reflexivity.
  - vm_compute. reflexivity.
  - vm_compute. reflexivity.
  - vm_compute. intros [[_ H] _]. discriminate H.
Defined.

(** ** Two updates, two runs *)

(** X5. The update in memory replaces [bundle.resources]; it does not
    merge.  Applying the resources of one platform and then those of
    another gives what applying the second alone gives, and raises where
    it raises. *)
Theorem set_bundle_resources_last_wins resources1 resources2 config :
  rbind (set_bundle_resources resources1 config) (set_bundle_resources resources2)
  = set_bundle_resources resources2 config.
Proof. apply set_bundle_resources_twice. Qed.

(** X6. A run that returned can be run again: the second run returns
    too and leaves every file as the first left it. *)
Theorem rerun_leaves_files platform config_path w w1 :
  update_tauri_config platform config_path w = (Return (), w1) →
  ∃ w2,
    update_tauri_config platform config_path w1 = (Return (), w2) ∧
    files w2 = files w1.
Proof.
  intros H.
  destruct (update_Return_document _ _ _ _ H)
    as (resources & text & config & config' & Hget & Hf & _ & Hl & Hs & _ & _ & Hfiles).
  destruct (update_again _ _ _ _ _ _ H Hget)
    as (text' & config0 & config2 & Hf' & _ & Hl' & Hs' & _ & Hrun).
  assert (config2 = config') as -> by congruence.
  eexists. split; [exact Hrun |]. cbn [files]. by rewrite Hfiles.
Qed.

Lemma rerun_leaves_files_witness :
  let w := World {[ py "tauri.conf.json" :=
                      RegularFile ([ch "{"; quote] ++ py "otherKey" ++ [quote] ++ py ": 1}") ]}
             [] [] [] in
  let w1 := (update_tauri_config (py "linux-x86_64") (py "tauri.conf.json") w).2 in
  ∃ w2,
    update_tauri_config (py "linux-x86_64") (py "tauri.conf.json") w1 = (Return (), w2) ∧
    files w2 = files w1.
Proof.
  intros w w1.
  apply (rerun_leaves_files (py "linux-x86_64") (py "tauri.conf.json") w w1).
  vm_compute. reflexivity.
Defined.

(** X7. The last run wins.  After a run that returned, a run for another
    platform returns and leaves the files a run for that platform alone
    would have left: nothing of the first platform stays in the file. *)
Theorem last_run_wins platform1 platform2 config_path w w1 :
  platform2 ∈ choices →
  update_tauri_config platform1 config_path w = (Return (), w1) →
  ∃ w2 w2',
    update_tauri_config platform2 config_path w1 = (Return (), w2) ∧
    update_tauri_config platform2 config_path w = (Return (), w2') ∧
    files w2 = files w2'.
Proof.
  intros [resources2 Hget2]%table_get_choices H.
  destruct (update_again _ _ _ _ _ _ H Hget2)
    as (text & config & config2 & Hf & Hu & Hl & Hs & Hd & Hrun).
  eexists _, _. split; [exact Hrun |].
  split; [exact (update_ok _ _ _ _ _ _ _ Hget2 Hf Hu Hl Hs Hd) |]. done.
Qed.

Lemma last_run_wins_witness :
  let w := World {[ py "tauri.conf.json" :=
                      RegularFile ([ch "{"; quote] ++ py "otherKey" ++ [quote] ++ py ": 1}") ]}
             [] [] [] in
  let w1 := (update_tauri_config (py "windows-x86_64") (py "tauri.conf.json") w).2 in
  ∃ w2 w2',
    update_tauri_config (py "linux-x86_64") (py "tauri.conf.json") w1 = (Return (), w2) ∧
    update_tauri_config (py "linux-x86_64") (py "tauri.conf.json") w = (Return (), w2') ∧
    files w2 = files w2'.
Proof.
  intros w w1.
  apply (last_run_wins (py "windows-x86_64") (py "linux-x86_64") (py "tauri.conf.json")
           w w1).
  - exact linux_supported.
  - vm_compute. reflexivity.
Defined.

(** X8. What a run writes depends on the document [json.load] read and
    on nothing else of the text: two files whose texts load as the same
    document are left with the same text, whatever their white space and
    escapes were. *)
Theorem output_depends_on_document platform path1 path2 w1 w2 text1 text2 w1' :
  files w1 !! path1 = Some (RegularFile text1) →
  files w2 !! path2 = Some (RegularFile text2) →
  utf8_ok text2 = true →
  loads text1 = loads text2 →
  update_tauri_config platform path1 w1 = (Return (), w1') →
  ∃ w2',
    update_tauri_config platform path2 w2 = (Return (), w2') ∧
    files w2' !! path2 = files w1' !! path1.
Proof.
  intros Hf1 Hf2 Hu2 Heq H.
  destruct (update_Return _ _ _ _ H)
    as (resources & text & config & config' & Hget & Hf & Hu & Hl & Hs & Hd).
  assert (text = text1) as -> by congruence.
  rewrite (update_ok _ _ _ _ _ _ _ Hget Hf Hu Hl Hs Hd) in H. rewrite Heq in Hl.
  
  eexists. split; [exact (update_ok _ _ _ _ _ _ _ Hget Hf2 Hu2 Hl Hs Hd) |].
  simplify_eq. cbn [files]. by rewrite !lookup_insert_eq.
Qed.

Lemma output_depends_on_document_witness :
  let text1 := [ch "{"; quote] ++ py "otherKey" ++ [quote] ++ py ": 1}" in
  let text2 := [ch "{"; newline; space; space; space; space; quote] ++ py "otherKey"
                 ++ [quote] ++ py " :1 }" ++ [newline] in
  let w1 := World {[ py "tauri.conf.json" := RegularFile text1 ]} [] [] [] in
  let w2 := World {[ py "other.json" := RegularFile text2 ]} [] [] [] in
  let w1' := (update_tauri_config (py "linux-x86_64") (py "tauri.conf.json") w1).2 in
  ∃ w2',
    update_tauri_config (py "linux-x86_64") (py "other.json") w2 = (Return (), w2') ∧
    files w2' !! py "other.json" = files w1' !! py "tauri.conf.json".
Proof.
  intros text1 text2 w1 w2 w1'.
  apply (output_depends_on_document (py "linux-x86_64") (py "tauri.conf.json")
           (py "other.json") w1 w2 text1 text2 w1').
  - vm_compute. reflexivity.
  - vm_compute. reflexivity.
  - vm_compute. reflexivity.
  - vm_compute. reflexivity.
  - vm_compute. reflexivity.
Defined.

(** ** What no run does *)

(** X9. [sys.exit] is called with status 1 and nothing else, and only
    before any file is opened: the platform is unknown or the file is
    missing, no file is changed, nothing is on standard output, and the
    only file-system call made, if any, is the test [Path.exists]. *)
Theorem sys_exit_before_any_open platform config_path w c w' :
  update_tauri_config platform config_path w = (SysExit c, w') →
  c = 1%Z ∧
  (platform ∉ choices ∨ files w !! config_path = None) ∧
  files w' = files w ∧ stdout w' = stdout w ∧
  (trace w' = trace w ∨ trace w' = EvExists config_path :: trace w).
Proof.
  intros H.
  destruct (update_outcome _ _ _ _ _ H)
    as [(Hp & Hr & Hf & Ho & Ht)
       | [(_ & Hn & Hr & Hf & Ho & Ht)
         | [(_ & _ & (e & Hr & _) & _)
           | [(_ & Hr & _) | (_ & Hr & _)]]]];
    try discriminate Hr.
  - injection Hr as ->. repeat split; auto.
  - injection Hr as ->. repeat split; auto.
Qed.

Lemma sys_exit_before_any_open_witness :
  let w := World {[ py "tauri.conf.json" := RegularFile (py "{}") ]} [] [] [] in
  let w' := (update_tauri_config (py "linux-arm64") (py "tauri.conf.json") w).2 in
  1%Z = 1%Z ∧
  (py "linux-arm64" ∉ choices ∨ files w !! py "tauri.conf.json" = None) ∧
  files w' = files w ∧ stdout w' = stdout w ∧
  (trace w' = trace w ∨ trace w' = EvExists (py "tauri.conf.json") :: trace w).
Proof.
  intros w w'.
  apply (sys_exit_before_any_open (py "linux-arm64") (py "tauri.conf.json") w 1 w').
  vm_compute. reflexivity.
Defined.

(** X10. A run touches no file but the one at [config_path], however it
    ends. *)
Theorem other_files_untouched platform config_path w r w' path :
  update_tauri_config platform config_path w = (r, w') →
  path ≠ config_path →
  files w' !! path = files w !! path.
Proof.
  intros H Hne.
  destruct (update_outcome _ _ _ _ _ H)
    as [(_ & _ & Hf & _)
       | [(_ & _ & _ & Hf & _)
         | [(_ & _ & _ & ->)
           | [(_ & _ & (text & written & _ & Hf) & _)
             | (_ & _ & (text & written & _ & Hf) & _)]]]].
  - by rewrite Hf.
  - by rewrite Hf.
  - done.
  - rewrite Hf. by apply lookup_insert_ne.
  - rewrite Hf. by apply lookup_insert_ne.
Qed.

Lemma other_files_untouched_witness :
  let w := World {[ py "tauri.conf.json" := RegularFile (py "{}");
                    py "package.json" := RegularFile (py "[1]") ]} [] [] [] in
  let run := update_tauri_config (py "linux-x86_64") (py "tauri.conf.json") w in
  run.1 = Return () ∧
  files run.2 !! py "package.json" = files w !! py "package.json".
Proof.
  intros w run. split; [vm_compute; reflexivity |].
  apply (other_files_untouched (py "linux-x86_64") (py "tauri.conf.json") w run.1 run.2
           (py "package.json")).
  - exact (surjective_pairing run).
  - intros E. vm_compute in E. discriminate E.
Defined.

(** X11. The script writes on standard output only when it returns, and
    on standard error only when it calls [sys.exit]: a run that ends in
    an exception has printed nothing of its own. *)
Theorem output_by_outcome platform config_path w r w' :
  update_tauri_config platform config_path w = (r, w') →
  (r ≠ Return () → stdout w' = stdout w) ∧
  ((∀ c, r ≠ SysExit c) → stderr w' = stderr w).
Proof.
  intros H.
  destruct (update_outcome _ _ _ _ _ H)
    as [(_ & -> & _ & Ho & _)
       | [(_ & _ & -> & _ & Ho & _)
         | [(_ & _ & _ & ->)
           | [(_ & _ & _ & Ho & He & _)
             | (_ & -> & _ & He & _)]]]].
  - split; [done |]. intros Hc. by destruct (Hc 1%Z).
  - split; [done |]. intros Hc. by destruct (Hc 1%Z).
  - done.
  - done.
  - split; [| done]. intros Hr. by destruct Hr.
Qed.

Lemma output_by_outcome_witness :
  let w := World {[ py "tauri.conf.json" := RegularFile (py "{invalid") ]}
             (py "earlier output") (py "earlier errors") [] in
  let run := update_tauri_config (py "linux-x86_64") (py "tauri.conf.json") w in
  run.1 = Raise JSONDecodeError ∧
  (run.1 ≠ Return () → stdout run.2 = stdout w) ∧
  ((∀ c, run.1 ≠ SysExit c) → stderr run.2 = stderr w).
Proof.
  intros w run. split; [vm_compute; reflexivity |].
  apply (output_by_outcome (py "linux-x86_64") (py "tauri.conf.json") w run.1 run.2).
  exact (surjective_pairing run).
Defined.

(** X12. The file-system calls of a run are a prefix of: the test
    [Path.exists], the open for reading, the open for writing, in this
    order and each at most once, all on [config_path]; and a run that did
    not open the file for writing has changed no file. *)
Theorem io_calls_in_order platform config_path w r w' :
  update_tauri_config platform config_path w = (r, w') →
  ∃ calls,
    trace w' = calls ++ trace w ∧
    calls ∈ [ [];
              [EvExists config_path];
              [EvOpenRead config_path; EvExists config_path];
              [EvOpenWrite config_path; EvOpenRead config_path; EvExists config_path] ] ∧
    (EvOpenWrite config_path ∉ calls → files w' = files w).
Proof.
  intros H.
  destruct (update_outcome _ _ _ _ _ H)
    as [(_ & _ & Hf & _ & Ht)
       | [(_ & _ & _ & Hf & _ & Ht)
         | [(_ & _ & _ & ->)
           | [(_ & _ & _ & _ & _ & Ht)
             | (_ & _ & _ & _ & Ht)]]]].
  - exists []. split; [done |]. split; [rewrite !elem_of_cons; auto |]. done.
  - exists [EvExists config_path].
    split; [done |]. split; [rewrite !elem_of_cons; auto |]. done.
  - exists [EvOpenRead config_path; EvExists config_path].
    split; [done |]. split; [rewrite !elem_of_cons; auto |]. done.
  - exists [EvOpenWrite config_path; EvOpenRead config_path; EvExists config_path].
    split; [done |]. split; [rewrite !elem_of_cons; auto |].
    intros Hn. destruct Hn. apply elem_of_cons. by left.
  - exists [EvOpenWrite config_path; EvOpenRead config_path; EvExists config_path].
    split; [done |]. split; [rewrite !elem_of_cons; auto |].
    intros Hn. destruct Hn. apply elem_of_cons. by left.
Qed.

Lemma io_calls_in_order_witness :
  let w := World {[ py "tauri.conf.json" := RegularFile (py "[]") ]} [] [] [] in
  let run := update_tauri_config (py "linux-x86_64") (py "tauri.conf.json") w in
  run.1 = Raise TypeError ∧
  ∃ calls,
    trace run.2 = calls ++ trace w ∧
    calls ∈ [ [];
              [EvExists (py "tauri.conf.json")];
              [EvOpenRead (py "tauri.conf.json"); EvExists (py "tauri.conf.json")];
              [EvOpenWrite (py "tauri.conf.json"); EvOpenRead (py "tauri.conf.json");
               EvExists (py "tauri.conf.json")] ] ∧
    (EvOpenWrite (py "tauri.conf.json") ∉ calls → files run.2 = files w).
Proof.
  intros w run. split; [vm_compute; reflexivity |].
  apply (io_calls_in_order (py "linux-x86_64") (py "tauri.conf.json") w run.1 run.2).
  exact (surjective_pairing run).
Defined.

(** ** The platforms [main] lets through *)

(** X13. The [choices] of [--platform] in [main] are the keys of
    [platform_resources], in the same order; so for a platform [main]
    lets through, the unknown-platform exit of [update_tauri_config] is
    never taken: if the run calls [sys.exit], the file is missing and the
    message on standard error says so. *)
Theorem choices_never_unknown platform config_path w c w' :
  platform ∈ choices →
  update_tauri_config platform config_path w = (SysExit c, w') →
  choices = map fst platform_resources ∧
  files w !! config_path = None ∧
  stderr w' =
    stderr w ++ (py "Error: Config file '" ++ config_path ++ py "' not found")
      ++ [newline].
Proof.
  intros Hin H. split; [reflexivity |].
  destruct (update_outcome _ _ _ _ _ H)
    as [(Hp & _)
       | [(_ & Hn & _)
         | [(_ & _ & (e & Hr & _) & _)
           | [(_ & Hr & _) | (_ & Hr & _)]]]];
    try discriminate Hr; [done |].
  split; [done |].
  apply table_get_choices in Hin as [resources Hget].
  rewrite (update_missing _ _ _ _ Hget Hn) in H. by simplify_eq.
Qed.

Lemma choices_never_unknown_witness :
  let w := World ∅ [] [] [] in
  let w' := (update_tauri_config (py "linux-x86_64") (py "tauri.conf.json") w).2 in
  choices = map fst platform_resources ∧
  files w !! py "tauri.conf.json" = None ∧
  stderr w' =
    stderr w ++ (py "Error: Config file '" ++ py "tauri.conf.json" ++ py "' not found")
      ++ [newline].
Proof.
  intros w w'.
  apply (choices_never_unknown (py "linux-x86_64") (py "tauri.conf.json") w 1 w').
  - exact linux_supported.
  - vm_compute. reflexivity.
Defined.

(** ** When a run returns *)

(** X14. A run returns exactly when the platform is one of the table,
    the file at [config_path] is a regular file of UTF-8 text that loads
    as JSON, the update in memory returns (the root is an object and
    [bundle] is absent or an object), and the updated document has no
    string with a surrogate. *)
Theorem run_returns_iff platform config_path w :
  (∃ w', update_tauri_config platform config_path w = (Return (), w')) ↔
  ∃ resources text config config',
    table_get platform platform_resources = Some resources ∧
    files w !! config_path = Some (RegularFile text) ∧
    utf8_ok text = true ∧
    loads text = Some config ∧
    set_bundle_resources resources config = Return config' ∧
    strings_ok config'.
Proof.
  split.
  - intros [w' H].
    destruct (update_Return_document _ _ _ _ H)
      as (resources & text & config & config' & Hget & Hf & Hu & Hl & Hs & _ & Hso & _).
    by exists resources, text, config, config'.
  - intros (resources & text & config & config' & Hget & Hf & Hu & Hl & Hs & Hso).
    eexists. apply (update_ok _ _ _ _ _ _ _ Hget Hf Hu Hl Hs).
    apply dumps_utf8_ok; [| done].
    destruct (set_bundle_resources_Return_inv _ _ _ Hs) as (d & b0 & -> & Hb & Hb0 & ->).
    apply updated_wf; [by eapply loads_wf | done].
Qed.
